(** * CityLens AI Explorer: the landmark pipeline and its audio decoder

    A shallow embedding of [GeminiService.ts] (the base64 and PCM16
    decoders and the three service wrappers), [types.ts] and the
    orchestration part of [App.tsx] ([processImage], [playAudio],
    [stopExperience]), followed by the properties the specification
    states about them. *)

From Stdlib Require Import ZArith NArith QArith Qround Ascii String Lia ZifyNat ZifyN.
From Stdlib.Strings Require Import Byte.
From stdpp Require Import base option list.

Local Open Scope nat_scope.

(** ** JavaScript values *)

Module JS.

(** A JavaScript string is a sequence of UTF-16 code units. *)
Abbreviation jsstring := (list N).

Definition lit (s : string) : jsstring :=
  map N_of_ascii (list_ascii_of_string s).
Arguments lit s : simpl never.

Fixpoint str_eqb (a b : jsstring) : bool :=
  match a, b with
  | [], [] => true
  | x :: a', y :: b' => N.eqb x y && str_eqb a' b'
  | _, _ => false
  end.

(** [s.startsWith(p)] and [s.includes(p)]. *)
Fixpoint startsWith (p s : jsstring) : bool :=
  match p, s with
  | [], _ => true
  | x :: p', y :: s' => N.eqb x y && startsWith p' s'
  | _ :: _, [] => false
  end.

Fixpoint includes (p s : jsstring) : bool :=
  startsWith p s ||
  match s with
  | [] => false
  | _ :: s' => includes p s'
  end.

(** ECMAScript WhiteSpace and LineTerminator code points, the ones
    [String.prototype.trim] strips. *)
Definition isWhiteSpace (c : N) : bool :=
  existsb (N.eqb c)
    [9; 10; 11; 12; 13; 32; 160; 5760; 8232; 8233; 8239; 8287; 12288; 65279]%N
  || (8192 <=? c)%N && (c <=? 8202)%N.

Fixpoint trimStart (s : jsstring) : jsstring :=
  match s with
  | c :: s' => if isWhiteSpace c then trimStart s' else s
  | [] => []
  end.

Definition trim (s : jsstring) : jsstring :=
  rev (trimStart (rev (trimStart s))).

(** [s.split(sep)[1]] for a one-unit separator: the text between the first
    and the second separator, [undefined] when there is no separator. *)
Fixpoint upto (sep : N) (s : jsstring) : jsstring :=
  match s with
  | [] => []
  | c :: s' => if N.eqb c sep then [] else c :: upto sep s'
  end.

Fixpoint split_1 (sep : N) (s : jsstring) : option jsstring :=
  match s with
  | [] => None
  | c :: s' => if N.eqb c sep then Some (upto sep s') else split_1 sep s'
  end.

(** Truthiness of a possibly undefined string: [undefined] and the empty
    string are falsy. *)
Definition truthy (v : option jsstring) : bool :=
  match v with
  | Some (_ :: _) => true
  | _ => false
  end.

(** [v || d] on a possibly undefined string. *)
Definition or_else (v : option jsstring) (d : jsstring) : jsstring :=
  match v with
  | Some (c :: s) => c :: s
  | _ => d
  end.

(** The numbers that occur as a frame count: a quotient of two array
    lengths, which is a rational, [Infinity] or [NaN]. *)
Inductive number :=
  | Finite (q : Q)
  | Infinity
  | NaN.

(** [n / c] on two non-negative integers. *)
Definition div (n c : nat) : number :=
  match c, n with
  | 0, 0 => NaN
  | 0, S _ => Infinity
  | S _, _ => Finite (Z.of_nat n # Pos.of_nat c)
  end.

(** How often the body of [for (let i = 0; i < bound; i++)] runs; [None]
    when the loop has no last iteration. *)
Definition trip_count (bound : number) : option nat :=
  match bound with
  | Finite q => Some (Z.to_nat (Qceiling q))
  | Infinity => None
  | NaN => Some 0
  end.

(** Thrown values: an [Error] object, of which the program reads only the
    [message] property (which a thrown value need not have). A thrown
    [null] or [undefined], of which no property can be read, is not
    modelled. *)
Record Error := mkError { message : option jsstring }.

Definition new_Error (msg : string) : Error := mkError (Some (lit msg)).

(** The result of running a piece of code: it returns, it throws, or it
    never finishes (a loop without a last iteration). *)
Inductive completion (A : Type) :=
  | Returns (a : A)
  | Throws (e : Error)
  | Diverges.
Arguments Returns {A} a.
Arguments Throws {A} e.
Arguments Diverges {A}.

(** Elements of a [Float32Array] that the decoder can write: the quotient
    of a 16-bit integer by [32768] has at most 16 significant bits, so it
    is a binary32 (and a binary64) number and no rounding takes place; it
    is kept as the exact rational. Reading past the end of a typed array
    gives [undefined], and [undefined / 32768.0] is [NaN]. *)
Inductive float32 :=
  | F32 (q : Q)
  | F32_NaN.

(** [ToUint8]: what storing a number into a [Uint8Array] keeps. *)
Definition ToUint8 (n : N) : byte :=
  match Byte.of_N (n mod 256) with
  | Some b => b
  | None => x00
  end.

(** [s.charCodeAt(i)]; [None] is [NaN]. *)
Definition charCodeAt (s : jsstring) (i : nat) : option N := s !! i.

Definition store_Uint8 (v : option N) : byte :=
  match v with
  | Some n => ToUint8 n
  | None => x00
  end.

(** A [Uint8Array] is a view on an [ArrayBuffer]: [byteLength] bytes of
    the buffer, from [byteOffset] on. Its [buffer] property is the whole
    buffer, not the part that the view shows. *)
Record Uint8Array := mkUint8Array {
  buffer : list byte;
  byteOffset : nat;
  byteLength : nat
}.

(** The elements [a[0]], [a[1]], ... of the view. *)
Definition elements (a : Uint8Array) : list byte :=
  take (byteLength a) (drop (byteOffset a) (buffer a)).

(** [new Uint8Array(n)]: a buffer of [n] zero bytes of its own, all of it
    in view. *)
Definition new_Uint8Array (n : nat) : Uint8Array :=
  mkUint8Array (replicate n x00) 0 n.

(** [a[i] = v]; a write past the end of the view is dropped. *)
Definition set_element (a : Uint8Array) (i : nat) (v : byte) : Uint8Array :=
  if i <? byteLength a
  then mkUint8Array (<[byteOffset a + i := v]> (buffer a)) (byteOffset a) (byteLength a)
  else a.

(** [new Uint8Array(bytes)] on a list of bytes: a buffer of its own. *)
Definition Uint8Array_of (bytes : list byte) : Uint8Array :=
  mkUint8Array bytes 0 (length bytes).

(** [a.subarray(begin, end)]: another view on the buffer of [a]. *)
Definition subarray (a : Uint8Array) (begin end_ : nat) : Uint8Array :=
  let b := Nat.min begin (byteLength a) in
  let e := Nat.min end_ (byteLength a) in
  mkUint8Array (buffer a) (byteOffset a + b) (e - b).

(** One element of an [Int16Array] laid over two bytes of a buffer
    (little-endian, two's complement). *)
Definition int16_of_bytes (lo hi : byte) : Z :=
  let u := (Z.of_N (Byte.to_N lo) + 256 * Z.of_N (Byte.to_N hi))%Z in
  if (u <? 32768)%Z then u else (u - 65536)%Z.

Fixpoint int16_view (buf : list byte) : list Z :=
  match buf with
  | lo :: hi :: rest => int16_of_bytes lo hi :: int16_view rest
  | _ => []
  end.

(** [new Int16Array(buffer)]: a [RangeError] when the byte length is odd. *)
Definition new_Int16Array (buf : list byte) : completion (list Z) :=
  if Nat.even (length buf) then Returns (int16_view buf)
  else Throws (new_Error "byte length of Int16Array should be a multiple of 2").

End JS.

Import JS.

(** ** The Web Audio objects the program touches *)

Record AudioBuffer := mkAudioBuffer {
  sampleRate : Z;
  channels : list (list float32)
}.

(** An [AudioContext] is used for [createBuffer] only; the platform's
    implementation is a parameter of the development. [None] stands for
    the [NotSupportedError] of the platform. *)
Record AudioContext := mkAudioContext {
  createBuffer : nat -> number -> Z -> option AudioBuffer
}.

(** The behaviour the Web Audio standard prescribes: a zero-filled buffer
    whose length is the frame count converted to an unsigned integer,
    refused when a count is zero. *)
Definition number_to_length (f : number) : nat :=
  match f with
  | Finite q => Z.to_nat (Qfloor q)
  | _ => 0
  end.

Definition webaudio_createBuffer (c : nat) (f : number) (rate : Z) : option AudioBuffer :=
  match c, number_to_length f with
  | 0, _ | _, 0 => None
  | _, len => Some (mkAudioBuffer rate (replicate c (replicate len (F32 0))))
  end.

Definition webaudio : AudioContext := mkAudioContext webaudio_createBuffer.

(** ** GeminiService.ts: the decoders *)

Section Decoders.

(** [atob] of the platform; [None] is its [InvalidCharacterError]. *)
Variable atob : jsstring -> option jsstring.

Definition decodeBase64 (base64 : jsstring) : completion Uint8Array :=
  match atob base64 with
  | None => Throws (new_Error "The string to be decoded is not correctly encoded.")
  | Some binaryString =>
      let len := length binaryString in
      let bytes := new_Uint8Array len in
      Returns
        (foldl (fun bytes i => set_element bytes i (store_Uint8 (charCodeAt binaryString i)))
               bytes (seq 0 len))
  end.

End Decoders.

(** [x / 32768.0] for an element [x] read from the [Int16Array]. *)
Definition over_32768 (x : option Z) : float32 :=
  match x with
  | Some s => F32 (inject_Z s / 32768)
  | None => F32_NaN
  end.

(** The inner loop of [decodeAudioData] for one channel. *)
Definition fill_channel (dataInt16 : list Z) (numChannels channel frames : nat)
    (channelData : list float32) : list float32 :=
  foldl (fun channelData i =>
           <[i := over_32768 (dataInt16 !! (i * numChannels + channel))]> channelData)
        channelData (seq 0 frames).

Definition decode_channel (dataInt16 : list Z) (numChannels : nat) (frameCount : number)
    (acc : completion AudioBuffer) (channel : nat) : completion AudioBuffer :=
  match acc with
  | Returns buffer =>
      (* buffer.getChannelData(channel) *)
      match channels buffer !! channel with
      | None => Throws (new_Error "IndexSizeError")
      | Some channelData =>
          match trip_count frameCount with
          | None => Diverges
          | Some frames =>
              Returns (mkAudioBuffer (sampleRate buffer)
                         (<[channel := fill_channel dataInt16 numChannels channel frames channelData]>
                            (channels buffer)))
          end
      end
  | _ => acc
  end.

Definition decodeAudioData (data : Uint8Array) (ctx : AudioContext)
    (sampleRate : Z) (numChannels : nat) : completion AudioBuffer :=
  match new_Int16Array (buffer data) with
  | Returns dataInt16 =>
      let frameCount := JS.div (length dataInt16) numChannels in
      match createBuffer ctx numChannels frameCount sampleRate with
      | None => Throws (new_Error "NotSupportedError")
      | Some buffer =>
          foldl (decode_channel dataInt16 numChannels frameCount)
                (Returns buffer) (seq 0 numChannels)
      end
  | Throws e => Throws e
  | Diverges => Diverges
  end.

(** ** The [@google/genai] client, as far as the program uses it *)

Module GenAI.

Record GroundingChunkWeb := mkWeb {
  title : option jsstring;
  uri : option jsstring
}.

Record GroundingChunk := mkChunk { web : option GroundingChunkWeb }.

Record GroundingMetadata := mkGrounding {
  groundingChunks : option (list GroundingChunk)
}.

Record Blob := mkBlob { data : option jsstring }.

Record Part := mkPart { inlineData : option Blob }.

Record Content := mkContent { parts : option (list Part) }.

Record Candidate := mkCandidate {
  content : option Content;
  groundingMetadata : option GroundingMetadata
}.

Record GenerateContentResponse := mkResponse {
  text : option jsstring;
  candidates : option (list Candidate)
}.

Inductive Contents :=
  | InlineDataAndText (data : option jsstring) (mimeType text : jsstring)
  | Text (text : jsstring)
  | TextParts (text : jsstring).

Inductive Config :=
  | NoConfig
  | GoogleSearch
  | Speech (voiceName : jsstring).

Record Request := mkRequest {
  model : jsstring;
  contents : Contents;
  config : Config
}.

End GenAI.

(** ** types.ts *)

Inductive AppState :=
  | IDLE
  | LOADING_IMAGE
  | SEARCHING_HISTORY
  | GENERATING_AUDIO
  | PLAYING
  | ERROR.

(** An element of [sources]. [getLandmarkHistory] returns [any[]]: the
    two properties hold whatever the grounding chunk held, [undefined]
    included. *)
Record Source := mkSource {
  title : option jsstring;
  uri : option jsstring
}.

Record LandmarkAnalysis := mkAnalysis {
  name : jsstring;
  history : jsstring;
  sources : list Source;
  audioData : option jsstring
}.

(** ** The run-time: the component's state, the platform, the trace *)

(** What the program does to the outside, in the order it does it. *)
Inductive Event :=
  | HasSelectedApiKey
  | OpenSelectKey
  | SetState (s : AppState)
  | SetError (e : option jsstring)
  | SetAnalysis (a : option LandmarkAnalysis)
  | SetImagePreview (p : option jsstring)
  | SetIsApiKeyChecked (b : bool)
  | GenerateContent (r : GenAI.Request)
  | NewAudioContext (rate : Z)
  | SourceStop (node : nat)
  | SourceStart (node : nat) (buffer : AudioBuffer)
  | UnhandledRejection (e : Error).

(** The [useState] cells and the [useRef] cells of [App]; [nodes] counts
    the buffer source nodes created so far and names the next one. *)
Record Component := mkComponent {
  state : AppState;
  error : option jsstring;
  analysis : option LandmarkAnalysis;
  imagePreview : option jsstring;
  isApiKeyChecked : bool;
  audioContextRef : option AudioContext;
  audioSourceRef : option nat;
  nodes : nat
}.

Definition initial : Component :=
  mkComponent IDLE None None None false None None 0.

(** The collaborators of one call of [processImage]. The [aistudio] calls
    are taken to complete (neither [hasSelectedApiKey] nor [openSelectKey]
    rejects); [readAsDataURL] is [None] when the read fails and [onload]
    never fires. *)
Record Platform := mkPlatform {
  hasSelectedApiKey : bool;
  readAsDataURL : option jsstring;
  generateContent : GenAI.Request -> completion GenAI.GenerateContentResponse;
  atob : jsstring -> option jsstring;
  newAudioContext : AudioContext
}.

Definition Run (A : Type) : Type :=
  Component -> completion A * Component * list Event.

#[global] Instance Run_ret : MRet Run :=
  fun A a c => (Returns a, c, []).

#[global] Instance Run_bind : MBind Run :=
  fun A B k m c =>
    match m c with
    | (Returns a, c1, ev1) => let '(r, c2, ev2) := k a c1 in (r, c2, ev1 ++ ev2)
    | (Throws e, c1, ev1) => (Throws e, c1, ev1)
    | (Diverges, c1, ev1) => (Diverges, c1, ev1)
    end.

Definition emit (e : Event) : Run unit := fun c => (Returns tt, c, [e]).

Definition lift {A} (r : completion A) : Run A := fun c => (r, c, []).

Definition throw {A} (e : Error) : Run A := lift (Throws e).

Definition get {A} (f : Component -> A) : Run A := fun c => (Returns (f c), c, []).

Definition modify (f : Component -> Component) : Run unit :=
  fun c => (Returns tt, f c, []).

(** [try { body } catch (err) { handler }] *)
Definition try_catch (body : Run unit) (handler : Error -> Run unit) : Run unit :=
  fun c =>
    match body c with
    | (Throws e, c1, ev1) => let '(r, c2, ev2) := handler e c1 in (r, c2, ev1 ++ ev2)
    | done => done
    end.

(** Calling an [async] function without [await]: its effects take place,
    its rejection reaches nobody. *)
Definition not_awaited (body : Run unit) : Run unit :=
  try_catch body (fun e => emit (UnhandledRejection e)).

Definition setState (s : AppState) : Run unit :=
  emit (SetState s);;
  modify (fun c => mkComponent s (error c) (analysis c) (imagePreview c)
                     (isApiKeyChecked c) (audioContextRef c) (audioSourceRef c) (nodes c)).

Definition setError (e : option jsstring) : Run unit :=
  emit (SetError e);;
  modify (fun c => mkComponent (state c) e (analysis c) (imagePreview c)
                     (isApiKeyChecked c) (audioContextRef c) (audioSourceRef c) (nodes c)).

Definition setAnalysis (a : option LandmarkAnalysis) : Run unit :=
  emit (SetAnalysis a);;
  modify (fun c => mkComponent (state c) (error c) a (imagePreview c)
                     (isApiKeyChecked c) (audioContextRef c) (audioSourceRef c) (nodes c)).

Definition setImagePreview (p : option jsstring) : Run unit :=
  emit (SetImagePreview p);;
  modify (fun c => mkComponent (state c) (error c) (analysis c) p
                     (isApiKeyChecked c) (audioContextRef c) (audioSourceRef c) (nodes c)).

Definition setIsApiKeyChecked (b : bool) : Run unit :=
  emit (SetIsApiKeyChecked b);;
  modify (fun c => mkComponent (state c) (error c) (analysis c) (imagePreview c)
                     b (audioContextRef c) (audioSourceRef c) (nodes c)).

Definition set_audioContextRef (r : option AudioContext) : Run unit :=
  modify (fun c => mkComponent (state c) (error c) (analysis c) (imagePreview c)
                     (isApiKeyChecked c) r (audioSourceRef c) (nodes c)).

Definition set_audioSourceRef (r : option nat) : Run unit :=
  modify (fun c => mkComponent (state c) (error c) (analysis c) (imagePreview c)
                     (isApiKeyChecked c) (audioContextRef c) r (nodes c)).

(** [createBufferSource()]: a node that no one has seen before. *)
Definition createBufferSource : Run nat :=
  n ← get nodes;
  modify (fun c => mkComponent (state c) (error c) (analysis c) (imagePreview c)
                     (isApiKeyChecked c) (audioContextRef c) (audioSourceRef c) (S n));;
  mret n.

(** ** GeminiService.ts: the three calls *)

Module GeminiService.

Section Calls.

Variable P : Platform.

Definition call (r : GenAI.Request) : Run GenAI.GenerateContentResponse :=
  emit (GenerateContent r);;
  lift (generateContent P r).

Definition identify_prompt : jsstring :=
  lit "Identify this landmark. Return ONLY the name of the landmark. If not a landmark, say 'Unknown'.".

Definition identify_request (base64Image : jsstring) : GenAI.Request :=
  GenAI.mkRequest (lit "gemini-3-pro-preview")
    (GenAI.InlineDataAndText (split_1 44 base64Image) (lit "image/jpeg") identify_prompt)
    GenAI.NoConfig.

Definition identifyLandmark (base64Image : jsstring) : Run jsstring :=
  response ← call (identify_request base64Image);
  mret (or_else (trim <$> GenAI.text response) (lit "Unknown")).

Definition history_request (landmark : jsstring) : GenAI.Request :=
  GenAI.mkRequest (lit "gemini-3-flash-preview")
    (GenAI.Text
       (lit "Provide a fascinating and concise 3-paragraph history of " ++ landmark
        ++ lit " for a tourism app. Make it engaging for a narrator to read."))
    GenAI.GoogleSearch.

(** [response.candidates?.[0]?.groundingMetadata?.groundingChunks] *)
Definition groundingChunks_of (response : GenAI.GenerateContentResponse)
    : option (list GenAI.GroundingChunk) :=
  cands ← GenAI.candidates response;
  c0 ← cands !! 0;
  gm ← GenAI.groundingMetadata c0;
  GenAI.groundingChunks gm.

(** The callback of [filter]: is [chunk.web] truthy? *)
Definition has_web (chunk : GenAI.GroundingChunk) : bool :=
  match GenAI.web chunk with
  | Some _ => true
  | None => false
  end.

(** The callback of [map]; reading a property of an [undefined]
    [chunk.web] is a [TypeError]. *)
Definition to_source (chunk : GenAI.GroundingChunk) : completion Source :=
  match GenAI.web chunk with
  | Some w => Returns (mkSource (GenAI.title w) (GenAI.uri w))
  | None => Throws (new_Error "Cannot read properties of undefined (reading 'title')")
  end.

Fixpoint array_map {A B} (f : A -> completion B) (l : list A) : completion (list B) :=
  match l with
  | [] => Returns []
  | x :: l' =>
      match f x with
      | Returns y =>
          match array_map f l' with
          | Returns ys => Returns (y :: ys)
          | Throws e => Throws e
          | Diverges => Diverges
          end
      | Throws e => Throws e
      | Diverges => Diverges
      end
  end.

Definition extract_sources (response : GenAI.GenerateContentResponse)
    : completion (list Source) :=
  match groundingChunks_of response with
  | Some chunks => array_map to_source (List.filter has_web chunks)
  | None => Returns []
  end.

Definition getLandmarkHistory (landmark : jsstring) : Run (jsstring * list Source) :=
  response ← call (history_request landmark);
  sources ← lift (extract_sources response);
  mret (or_else (GenAI.text response) (lit "History unavailable."), sources).

Definition narration_request (text : jsstring) : GenAI.Request :=
  GenAI.mkRequest (lit "gemini-2.5-flash-preview-tts")
    (GenAI.TextParts
       (lit "Read this history of a landmark clearly and with wonder: " ++ text))
    (GenAI.Speech (lit "Kore")).

(** [response.candidates?.[0]?.content?.parts?.[0]?.inlineData?.data] *)
Definition audio_of (response : GenAI.GenerateContentResponse) : option jsstring :=
  cands ← GenAI.candidates response;
  c0 ← cands !! 0;
  ct ← GenAI.content c0;
  ps ← GenAI.parts ct;
  p0 ← ps !! 0;
  blob ← GenAI.inlineData p0;
  GenAI.data blob.

Definition generateNarration (text : jsstring) : Run jsstring :=
  response ← call (narration_request text);
  match audio_of response with
  | Some (c :: s) => mret (c :: s)
  | _ => throw (new_Error "Audio generation failed")
  end.

End Calls.

End GeminiService.

(** ** App.tsx *)

Module App.

Section Handlers.

Variable P : Platform.

Definition handleApiKeySelection : Run unit :=
  emit OpenSelectKey;;
  setIsApiKeyChecked true.

Definition playAudio (base64Audio : jsstring) : Run unit :=
  current ← get audioSourceRef;
  match current with
  | Some node => emit (SourceStop node)
  | None => mret tt
  end;;
  existing ← get audioContextRef;
  ctx ← match existing with
        | Some ctx => mret ctx
        | None =>
            emit (NewAudioContext 24000);;
            set_audioContextRef (Some (newAudioContext P));;
            mret (newAudioContext P)
        end;
  decoded ← lift (decodeBase64 (atob P) base64Audio);
  audioBuffer ← lift (decodeAudioData decoded ctx 24000 1);
  source ← createBufferSource;
  emit (SourceStart source audioBuffer);;
  set_audioSourceRef (Some source).

Definition credential_pattern : jsstring := lit "Requested entity was not found".

(** [err.message?.includes("Requested entity was not found")] *)
Definition credential_expired (err : Error) : bool :=
  match message err with
  | Some m => includes credential_pattern m
  | None => false
  end.

(** The body of the [try] block. *)
Definition stages (base64 : jsstring) : Run unit :=
  name ← GeminiService.identifyLandmark P base64;
  (if str_eqb name (lit "Unknown")
   then throw (new_Error "Could not identify a landmark in this photo.")
   else mret tt);;
  setState SEARCHING_HISTORY;;
  found ← GeminiService.getLandmarkHistory P name;
  setState GENERATING_AUDIO;;
  audioData ← GeminiService.generateNarration P (fst found);
  setAnalysis (Some (mkAnalysis name (fst found) (snd found) (Some audioData)));;
  setState PLAYING;;
  not_awaited (playAudio audioData).

(** The body of the [catch] block. *)
Definition on_error (err : Error) : Run unit :=
  (if credential_expired err
   then
     setError (Some (lit "API key session expired. Please select your key again."));;
     handleApiKeySelection
   else
     setError (Some (or_else (message err) (lit "An unexpected error occurred."))));;
  setState ERROR.

Definition onload (base64 : jsstring) : Run unit :=
  setImagePreview (Some base64);;
  try_catch (stages base64) on_error.

Definition processImage : Run unit :=
  emit HasSelectedApiKey;;
  checked ← get isApiKeyChecked;
  if negb (hasSelectedApiKey P) && negb checked
  then handleApiKeySelection
  else
    setState LOADING_IMAGE;;
    setError None;;
    setAnalysis None;;
    match readAsDataURL P with
    | Some base64 => onload base64
    | None => mret tt
    end.

End Handlers.

Definition stopExperience : Run unit :=
  current ← get audioSourceRef;
  match current with
  | Some node => emit (SourceStop node)
  | None => mret tt
  end;;
  setState IDLE;;
  setAnalysis None;;
  setImagePreview None.

End App.

(** ** A reference platform

    The programme above takes [atob] and [createBuffer] from the browser.
    [atob] is given by the forgiving-base64 decoder of the WHATWG standard,
    which is what browsers implement. *)

Module Base64.

Definition isAsciiWhitespace (c : N) : bool :=
  existsb (N.eqb c) [9; 10; 12; 13; 32]%N.

(** The value of a code unit in the base64 alphabet. *)
Definition sextet (c : N) : option N :=
  if (65 <=? c)%N && (c <=? 90)%N then Some (c - 65)%N
  else if (97 <=? c)%N && (c <=? 122)%N then Some (c - 71)%N
  else if (48 <=? c)%N && (c <=? 57)%N then Some (c + 4)%N
  else if (c =? 43)%N then Some 62%N
  else if (c =? 47)%N then Some 63%N
  else None.

(** Remove one or two trailing [=], for a text whose length is a multiple
    of four. *)
Definition strip_padding (s : jsstring) : jsstring :=
  if Nat.eqb (length s mod 4) 0 then
    match rev s with
    | a :: r =>
        if N.eqb a 61 then
          match r with
          | b :: r' => if N.eqb b 61 then rev r' else rev r
          | [] => rev r
          end
        else s
    | [] => s
    end
  else s.

Fixpoint sextets (s : jsstring) : option (list N) :=
  match s with
  | [] => Some []
  | c :: s' =>
      match sextet c, sextets s' with
      | Some v, Some vs => Some (v :: vs)
      | _, _ => None
      end
  end.

(** Four sextets make three bytes; a rest of three makes two, a rest of
    two makes one, and the bits left over are dropped. *)
Fixpoint octets (l : list N) : list N :=
  match l with
  | a :: b :: c :: d :: rest =>
      (a * 4 + b / 16)%N :: ((b mod 16) * 16 + c / 4)%N :: ((c mod 4) * 64 + d)%N
      :: octets rest
  | [a; b; c] => [(a * 4 + b / 16)%N; ((b mod 16) * 16 + c / 4)%N]
  | [a; b] => [(a * 4 + b / 16)%N]
  | _ => []
  end.

(** The text that is decoded: whitespace and padding removed. *)
Definition stripped (s : jsstring) : jsstring :=
  strip_padding (List.filter (fun c => negb (isAsciiWhitespace c)) s).

Definition atob (s : jsstring) : option jsstring :=
  let s := strip_padding (List.filter (fun c => negb (isAsciiWhitespace c)) s) in
  if Nat.eqb (length s mod 4) 1 then None
  else octets <$> sextets s.

(** The base64 encoding of RFC 4648, with padding: what the specification
    calls a valid base64 string. The program does not use it. *)
Definition encode_sextet (v : N) : N :=
  if (v <? 26)%N then (v + 65)%N
  else if (v <? 52)%N then (v + 71)%N
  else if (v <? 62)%N then (v - 4)%N
  else if (v =? 62)%N then 43%N
  else 47%N.

(** Three bytes make four units; a rest of two makes three, a rest of
    one makes two. *)
Fixpoint encode_octets (l : list N) : jsstring :=
  match l with
  | a :: b :: c :: rest =>
      encode_sextet (a / 4)%N :: encode_sextet ((a mod 4) * 16 + b / 16)%N
      :: encode_sextet ((b mod 16) * 4 + c / 64)%N :: encode_sextet (c mod 64)%N
      :: encode_octets rest
  | [a; b] =>
      [encode_sextet (a / 4)%N; encode_sextet ((a mod 4) * 16 + b / 16)%N;
       encode_sextet ((b mod 16) * 4)%N]
  | [a] => [encode_sextet (a / 4)%N; encode_sextet ((a mod 4) * 16)%N]
  | [] => []
  end.

(** The padding of [n] bytes: [=] up to a multiple of four units. *)
Definition padding (n : nat) : jsstring :=
  replicate ((3 - n mod 3) mod 3) 61%N.

Definition encode (bytes : list byte) : jsstring :=
  encode_octets (Byte.to_N <$> bytes) ++ padding (length bytes).

End Base64.

(** ** PCM16 payloads, as the specification describes them

    The two bytes of a signed 16-bit sample, low byte first, and the
    payload of a sequence of samples. These follow the wording of the
    specification; the decoder above does not use them. *)

Definition int16 (s : Z) : Prop := (-32768 <= s < 32768)%Z.

Definition pcm16_bytes (s : Z) : list byte :=
  [ToUint8 (Z.to_N (s mod 256)); ToUint8 (Z.to_N ((s / 256) mod 256))].

Definition pcm16_le (samples : list Z) : list byte :=
  samples ≫= pcm16_bytes.

(** ** Vocabulary for the statements *)

(** A call that returns [v], or throws [e], whatever the state of the
    component. *)
Definition returns {A} (m : Run A) (v : A) : Prop :=
  forall c, (m c).1.1 = Returns v.

Definition throws {A} (m : Run A) (e : Error) : Prop :=
  forall c, (m c).1.1 = Throws e.

(** [processImage] gets past the API-key check. *)
Definition key_ready (P : Platform) (c : Component) : Prop :=
  hasSelectedApiKey P = true \/ isApiKeyChecked c = true.

(** The [stop()] that opens [playAudio] and [stopExperience]. *)
Definition stops (current : option nat) : list Event :=
  match current with
  | Some node => [SourceStop node]
  | None => []
  end.

(** The events of the three stages before anything is published: stage
    changes and service calls. *)
Definition quiet (e : Event) : Prop :=
  match e with
  | SetState SEARCHING_HISTORY | SetState GENERATING_AUDIO | GenerateContent _ => True
  | _ => False
  end.

(** The values that [setAnalysis] received, in order: what a reader of
    [analysis] can have seen. *)
Definition published (trace : list Event) : list (option LandmarkAnalysis) :=
  omap (fun e => match e with SetAnalysis a => Some a | _ => None end) trace.

(** Every non-empty audio payload that a response carries, in any part of
    any candidate. *)
Definition audio_payloads (response : GenAI.GenerateContentResponse) : list jsstring :=
  cand ← default [] (GenAI.candidates response);
  part ← default [] (GenAI.content cand ≫= GenAI.parts);
  match GenAI.inlineData part ≫= GenAI.data with
  | Some (x :: s) => [x :: s]
  | _ => []
  end.

(** The web references of a list of grounding chunks, in order. *)
Definition web_references (chunks : list GenAI.GroundingChunk) : list GenAI.GroundingChunkWeb :=
  omap GenAI.web chunks.

(** The state in which [onload] enters the [try] block, and the events of
    [processImage] up to there. *)
Definition loaded (c : Component) (base64 : jsstring) : Component :=
  mkComponent LOADING_IMAGE None None (Some base64) (isApiKeyChecked c)
    (audioContextRef c) (audioSourceRef c) (nodes c).

Definition submission (base64 : jsstring) : list Event :=
  [HasSelectedApiKey; SetState LOADING_IMAGE; SetError None; SetAnalysis None;
   SetImagePreview (Some base64)].

(** ** Sample collaborators *)

Module Sample.

Definition photo : jsstring := lit "data:image/jpeg;base64,/9j/4AAQ".

Definition wiki : GenAI.GroundingChunkWeb :=
  GenAI.mkWeb (Some (lit "Wiki")) (Some (lit "https://en.wikipedia.org/wiki/Eiffel_Tower")).

Definition untitled : GenAI.GroundingChunkWeb :=
  GenAI.mkWeb None (Some (lit "https://www.toureiffel.paris")).

Definition chunks : list GenAI.GroundingChunk :=
  [GenAI.mkChunk (Some wiki); GenAI.mkChunk None; GenAI.mkChunk (Some untitled)].

Definition identified (text : option jsstring) : GenAI.GenerateContentResponse :=
  GenAI.mkResponse text None.

Definition researched (text : option jsstring) : GenAI.GenerateContentResponse :=
  GenAI.mkResponse text
    (Some [GenAI.mkCandidate None (Some (GenAI.mkGrounding (Some chunks)))]).

Definition narrated (payload : option jsstring) : GenAI.GenerateContentResponse :=
  GenAI.mkResponse None
    (Some [GenAI.mkCandidate
             (Some (GenAI.mkContent (Some [GenAI.mkPart (Some (GenAI.mkBlob payload))])))
             None]).

(** A service that answers each of the three kinds of request with a
    fixed response (the three wrappers differ in the shape of [contents]). *)
Definition service (identify research narrate : completion GenAI.GenerateContentResponse)
    (r : GenAI.Request) : completion GenAI.GenerateContentResponse :=
  match GenAI.contents r with
  | GenAI.InlineDataAndText _ _ _ => identify
  | GenAI.Text _ => research
  | GenAI.TextParts _ => narrate
  end.

Definition platform (identify research narrate : completion GenAI.GenerateContentResponse)
    : Platform :=
  mkPlatform true (Some photo) (service identify research narrate) Base64.atob webaudio.

(** All three stages succeed; the payload is three PCM16 samples. *)
Definition eiffel : Platform :=
  platform (Returns (identified (Some (lit " Eiffel Tower "))))
           (Returns (researched (Some (lit "Paragraph one."))))
           (Returns (narrated (Some (lit "AAD/fwCA")))).

(** No landmark in the photo. *)
Definition unknown : Platform :=
  platform (Returns (identified (Some (lit "Unknown"))))
           (Returns (researched (Some (lit "Paragraph one."))))
           (Returns (narrated (Some (lit "AAD/fwCA")))).

(** The research service has no text, the narration service no audio. *)
Definition silent : Platform :=
  platform (Returns (identified (Some (lit "Eiffel Tower"))))
           (Returns (researched None))
           (Returns (narrated None)).

(** The research service has no text. *)
Definition terse : Platform :=
  platform (Returns (identified (Some (lit "Eiffel Tower"))))
           (Returns (researched (Some [])))
           (Returns (narrated (Some (lit "AAD/fwCA")))).

(** The credential has expired. *)
Definition expired : Platform :=
  platform (Throws (new_Error "404 Requested entity was not found."))
           (Returns (researched None))
           (Returns (narrated None)).

End Sample.

(** The events of the audio side of the component. *)
Definition audio (e : Event) : Prop :=
  match e with
  | SourceStop _ | SourceStart _ _ | NewAudioContext _ | UnhandledRejection _ => True
  | _ => False
  end.

Definition is_start (e : Event) : Prop :=
  match e with
  | SourceStart _ _ => True
  | _ => False
  end.

(** The requests sent to the service, in order. *)
Definition requests (trace : list Event) : list GenAI.Request :=
  omap (fun e => match e with GenerateContent r => Some r | _ => None end) trace.

(** ** App.tsx: the controls of the rendered view *)

#[global] Instance AppState_eq_dec : EqDecision AppState.
Proof. solve_decision. Defined.

(** What the user can do: choose a file in the file input (which calls
    [processImage]; the platform of that call comes with the action),
    press "Change API Key", "Finish Tour" or "Try Another Photo". *)
Inductive Action :=
  | ChooseFile (P : Platform)
  | ChangeApiKey
  | FinishTour
  | TryAnotherPhoto.

(** The conditions under which the view renders each control: the header
    button always; the file input in the [IDLE] panel; "Finish Tour" in
    the immersive view (neither [IDLE] nor [ERROR]) once there is an
    analysis; "Try Another Photo" in the [ERROR] panel. *)
Definition offered (c : Component) (a : Action) : bool :=
  match a with
  | ChooseFile _ => bool_decide (state c = IDLE)
  | ChangeApiKey => true
  | FinishTour =>
      bool_decide (state c <> IDLE) && bool_decide (state c <> ERROR)
      && match analysis c with Some _ => true | None => false end
  | TryAnotherPhoto => bool_decide (state c = ERROR)
  end.

(** The handler of each control. *)
Definition handle (a : Action) : Run unit :=
  match a with
  | ChooseFile P => App.processImage P
  | ChangeApiKey => App.handleApiKeySelection
  | FinishTour => App.stopExperience
  | TryAnotherPhoto => setState IDLE
  end.

(** A session: actions that the view offers, taken one after the other,
    each when the handler of the one before has finished. A handler whose
    service call never answers is left where it hangs. *)
Inductive steps : Component -> list Event -> Component -> Prop :=
  | steps_done c : steps c [] c
  | steps_next c a r c1 t1 t2 c2 :
      offered c a = true ->
      handle a c = (r, c1, t1) ->
      steps c1 t2 c2 ->
      steps c (t1 ++ t2) c2.

(** The source nodes that are playing: started and not stopped since. *)
Definition hear (now : list nat) (e : Event) : list nat :=
  match e with
  | SourceStart node _ => node :: now
  | SourceStop node => List.filter (fun m => negb (Nat.eqb m node)) now
  | _ => now
  end.

Definition playing (trace : list Event) : list nat := foldl hear [] trace.

(** The largest number of nodes playing at one time in the course of a
    trace, [now] being those that play when it starts. *)
Fixpoint peak (now : list nat) (trace : list Event) : nat :=
  match trace with
  | [] => length now
  | e :: trace' => Nat.max (length now) (peak (hear now e) trace')
  end.

(** The events that start and stop nothing. *)
Definition mute (e : Event) : Prop :=
  match e with
  | SourceStart _ _ | SourceStop _ => False
  | _ => True
  end.

(** A stage of the pipeline with nothing to show: the view has the
    spinner, and no control but the header button. *)
Definition waiting (c : Component) : Prop :=
  analysis c = None /\
  (state c = LOADING_IMAGE \/ state c = SEARCHING_HISTORY \/ state c = GENERATING_AUDIO).

(** What is playing is the current node, and only in [PLAYING]. *)
Definition one_playing (c : Component) (now : list nat) : Prop :=
  now = [] \/ exists n, now = [n] /\ audioSourceRef c = Some n /\ state c = PLAYING.


(** A session run on given actions; [None] when one of them is not
    offered at its turn. *)
Fixpoint play (actions : list Action) (c : Component) : option (Component * list Event) :=
  match actions with
  | [] => Some (c, [])
  | a :: rest =>
      if offered c a then
        let '(_, c1, t1) := handle a c in
        match play rest c1 with
        | Some (c2, t2) => Some (c2, t1 ++ t2)
        | None => None
        end
      else None
  end.

Module Sample2.

(** The file cannot be read. *)
Definition unreadable : Platform :=
  mkPlatform true None
    (Sample.service (Returns (Sample.identified None))
       (Returns (Sample.researched None)) (Returns (Sample.narrated None)))
    Base64.atob webaudio.

(** No key has been selected. *)
Definition keyless : Platform :=
  mkPlatform false (Some Sample.photo)
    (Sample.service (Returns (Sample.identified (Some (lit "Eiffel Tower"))))
       (Returns (Sample.researched None)) (Returns (Sample.narrated None)))
    Base64.atob webaudio.

(** The identify response is blank. *)
Definition blank : Platform :=
  Sample.platform (Returns (Sample.identified (Some (lit "  "))))
    (Returns (Sample.researched None)) (Returns (Sample.narrated None)).

(** A narration whose first part is text and whose second part holds the
    audio. *)
Definition audio_second : GenAI.GenerateContentResponse :=
  GenAI.mkResponse None
    (Some [GenAI.mkCandidate
             (Some (GenAI.mkContent
                      (Some [GenAI.mkPart None;
                             GenAI.mkPart (Some (GenAI.mkBlob (Some (lit "AAD/fwCA"))))])))
             None]).

Definition late_audio : Platform :=
  Sample.platform (Returns (Sample.identified (Some (lit "Eiffel Tower"))))
    (Returns (Sample.researched (Some (lit "Paragraph one."))))
    (Returns audio_second).

(** The audio payload is not base64. *)
Definition garbled : Platform :=
  Sample.platform (Returns (Sample.identified (Some (lit "Eiffel Tower"))))
    (Returns (Sample.researched (Some (lit "Paragraph one."))))
    (Returns (Sample.narrated (Some (lit "AA*A")))).

(** Two photos: a tour that is finished, then a photo without landmark. *)
Definition tour : list Action :=
  [ChooseFile Sample.eiffel; ChangeApiKey; FinishTour;
   ChooseFile Sample.unknown; TryAnotherPhoto; ChooseFile Sample.eiffel].

End Sample2.

(** The audio contexts created in the course of a trace. *)
Definition contexts (trace : list Event) : nat :=
  length (omap (fun e => match e with NewAudioContext r => Some r | _ => None end) trace).

(** A piece of code leaves the audio context alone, or creates the first
    one. *)
Definition context_step (c c' : Component) (t : list Event) : Prop :=
  (audioContextRef c' = audioContextRef c /\ contexts t = 0) \/
  (audioContextRef c = None /\ audioContextRef c' <> None /\ contexts t = 1).

Definition keeps_context {A} (m : Run A) : Prop :=
  forall c r c' t, m c = (r, c', t) -> context_step c c' t.

(** ** App.tsx: the history as it is rendered *)

(** [s.split(sep)] for a one-unit separator. *)
Fixpoint split (sep : N) (s : jsstring) : list jsstring :=
  match s with
  | [] => [[]]
  | c :: s' =>
      if N.eqb c sep then [] :: split sep s'
      else
        match split sep s' with
        | p :: ps => (c :: p) :: ps
        | [] => [[c]]
        end
  end.

(** [pieces.join(sep)] *)
Fixpoint join (sep : N) (pieces : list jsstring) : jsstring :=
  match pieces with
  | [] => []
  | [p] => p
  | p :: ps => p ++ sep :: join sep ps
  end.

(** The paragraphs of the history section: [analysis.history.split('\n')],
    one [<p>] each. *)
Definition paragraphs (a : LandmarkAnalysis) : list jsstring :=
  split 10 (history a).

(** ** Cells that a piece of code leaves in a given relation *)

Definition respects (R : Component -> Component -> Prop) {A} (m : Run A) : Prop :=
  forall c r c' t, m c = (r, c', t) -> R c c'.

(** The preview is left as it is. *)
Definition same_preview (c c' : Component) : Prop := imagePreview c' = imagePreview c.

(** The mark of a key selection is not taken back. *)
Definition still_checked (c c' : Component) : Prop :=
  isApiKeyChecked c = true -> isApiKeyChecked c' = true.

(** * Properties *)

(** Arithmetic with quotients and remainders by constants. *)
Ltac lia_div := zify; Z.div_mod_to_equations; lia.

(** ** Array writes in a counting loop *)

Section ArrayWrites.

Context {A : Type} (f : nat -> A).

(** A loop [for (i = k; i < k + m; i++) l[i] = f(i)] over an array that is
    long enough rewrites exactly the cells [k .. k + m - 1]. *)
Lemma foldl_insert_seq (m : nat) :
  forall (k : nat) (l : list A),
    length l = k + m ->
    foldl (fun l i => <[i := f i]> l) l (seq k m) = take k l ++ (f <$> seq k m).
Proof.
  induction m as [|m IH]; intros k l Hlen; simpl.
  - rewrite app_nil_r, take_ge; [done | lia].
  - rewrite IH by (rewrite length_insert; lia).
    rewrite (take_S_r _ k (f k)) by (apply list_lookup_insert_eq; lia).
    rewrite take_insert_ge by lia.
    by rewrite <- app_assoc.
Qed.

Lemma foldl_insert_all (n : nat) (l : list A) :
  length l = n ->
  foldl (fun l i => <[i := f i]> l) l (seq 0 n) = f <$> seq 0 n.
Proof.
  intros Hlen. rewrite foldl_insert_seq by done. by rewrite take_0.
Qed.

End ArrayWrites.

(** ** decodeBase64 *)

Lemma ToUint8_to_N (n : N) : Byte.to_N (ToUint8 n) = (n mod 256)%N.
Proof.
  unfold ToUint8. destruct (Byte.of_N (n mod 256)) as [b|] eqn:E.
  - by apply Byte.to_of_N.
  - apply Byte.of_N_None_iff in E.
    pose proof (N.mod_lt n 256). lia.
Qed.

(** The loop of [decodeBase64] writes into the buffer of the array it
    allocated. *)
Lemma foldl_set_element (f : nat -> byte) (n m : nat) :
  forall (k : nat) (l : list byte),
    k + m <= n ->
    foldl (fun bytes i => set_element bytes i (f i)) (mkUint8Array l 0 n) (seq k m)
    = mkUint8Array (foldl (fun l i => <[i := f i]> l) l (seq k m)) 0 n.
Proof.
  induction m as [|m IH]; intros k l Hle; [done|].
  simpl. unfold set_element at 2. simpl.
  destruct (Nat.ltb_spec k n); [|lia]. apply IH. lia.
Qed.

Lemma decodeBase64_returns (atob : jsstring -> option jsstring) (base64 binaryString : jsstring) :
  atob base64 = Some binaryString ->
  decodeBase64 atob base64 = Returns (Uint8Array_of (ToUint8 <$> binaryString)).
Proof.
  intros Hatob. unfold decodeBase64, new_Uint8Array, Uint8Array_of. rewrite Hatob.
  cbv zeta. f_equal.
  rewrite (foldl_set_element (fun i => store_Uint8 (charCodeAt binaryString i))) by lia.
  rewrite length_fmap. f_equal.
  rewrite (foldl_insert_all (fun i => store_Uint8 (charCodeAt binaryString i)))
    by apply length_replicate.
  apply list_eq. intros i. rewrite !list_lookup_fmap.
  destruct (decide (i < length binaryString)) as [Hi|Hi].
  - rewrite lookup_seq_lt by done. simpl. unfold charCodeAt.
    destruct (lookup_lt_is_Some_2 binaryString i Hi) as [c Hc].
    by rewrite Hc.
  - rewrite (lookup_ge_None_2 (seq 0 _)) by (rewrite length_seq; lia).
    rewrite (lookup_ge_None_2 binaryString) by lia. done.
Qed.

(** A binary string (all code units below 256) is stored unchanged. *)
Lemma ToUint8_binary (binaryString : jsstring) :
  Forall (fun c => (c < 256)%N) binaryString ->
  Byte.to_N <$> (ToUint8 <$> binaryString) = binaryString.
Proof.
  intros Hsmall. rewrite <- list_fmap_compose.
  induction Hsmall as [|c s Hc _ IH]; [done|].
  rewrite fmap_cons, IH. f_equal. simpl.
  rewrite ToUint8_to_N. by apply N.mod_small.
Qed.

(** An array that spans its buffer shows all of it. *)
Lemma elements_whole (data : Uint8Array) :
  byteOffset data = 0 -> byteLength data = length (buffer data) ->
  elements data = buffer data.
Proof.
  intros Hoff Hlen. unfold elements. rewrite Hoff, Hlen, drop_0.
  by apply take_ge.
Qed.

Lemma ToUint8_of_byte (b : byte) : ToUint8 (Byte.to_N b) = b.
Proof.
  unfold ToUint8. pose proof (Byte.to_N_bounded b).
  rewrite N.mod_small by lia. by rewrite Byte.of_to_N.
Qed.

(** ** decodeAudioData *)

Lemma int16_of_pcm16_bytes (s : Z) :
  int16 s ->
  int16_of_bytes (ToUint8 (Z.to_N (s mod 256))) (ToUint8 (Z.to_N ((s / 256) mod 256))) = s.
Proof.
  unfold int16, int16_of_bytes. intros Hs.
  rewrite !ToUint8_to_N.
  assert (Hlo : (0 <= s mod 256 < 256)%Z) by (apply Z.mod_pos_bound; lia).
  assert (Hhi : (0 <= (s / 256) mod 256 < 256)%Z) by (apply Z.mod_pos_bound; lia).
  rewrite !N.mod_small by lia.
  rewrite !Z2N.id by lia.
  destruct (Z.ltb_spec (s mod 256 + 256 * ((s / 256) mod 256)) 32768) as [H|H];
    revert Hlo Hhi H; Z.div_mod_to_equations; lia.
Qed.

Lemma int16_view_pcm16_le (samples : list Z) :
  Forall int16 samples -> int16_view (pcm16_le samples) = samples.
Proof.
  induction 1 as [|s samples Hs _ IH]; [done|].
  unfold pcm16_le in *. rewrite bind_cons. simpl.
  rewrite IH. f_equal. by apply int16_of_pcm16_bytes.
Qed.

Lemma length_pcm16_le (samples : list Z) :
  length (pcm16_le samples) = 2 * length samples.
Proof.
  induction samples as [|s samples IH]; [done|].
  unfold pcm16_le in *. rewrite bind_cons, length_app, IH. simpl. lia.
Qed.

Lemma new_Int16Array_pcm16_le (samples : list Z) :
  Forall int16 samples -> new_Int16Array (pcm16_le samples) = Returns samples.
Proof.
  intros Hs. unfold new_Int16Array.
  rewrite length_pcm16_le, Nat.even_mul. simpl.
  by rewrite int16_view_pcm16_le.
Qed.

(** The inner loop runs once per frame when the sample count is a multiple
    of the channel count. *)
Lemma trip_count_div (frames numChannels : nat) :
  0 < numChannels ->
  trip_count (JS.div (frames * numChannels) numChannels) = Some frames.
Proof.
  intros Hc. destruct numChannels as [|c]; [lia|].
  unfold JS.div, trip_count, Qceiling, Qfloor, Qopp, Qnum, Qden. f_equal.
  replace (Z.pos (Pos.of_nat (S c))) with (Z.of_nat (S c))
    by (rewrite <- positive_nat_Z, Nat2Pos.id; done).
  rewrite Nat2Z.inj_mul, <- Z.mul_opp_l, Z.div_mul by lia.
  lia.
Qed.

Lemma fill_channel_all (dataInt16 : list Z) (numChannels channel frames : nat)
    (channelData : list float32) :
  length channelData = frames ->
  fill_channel dataInt16 numChannels channel frames channelData
  = (fun i => over_32768 (dataInt16 !! (i * numChannels + channel))) <$> seq 0 frames.
Proof.
  intros Hlen. unfold fill_channel.
  by rewrite (foldl_insert_all
                (fun i => over_32768 (dataInt16 !! (i * numChannels + channel)))).
Qed.

Lemma foldl_decode_channel (dataInt16 : list Z) (numChannels frames : nat)
    (frameCount : number) (rate : Z) (m : nat) :
  trip_count frameCount = Some frames ->
  forall (k : nat) (chs : list (list float32)),
    length chs = k + m ->
    Forall (fun ch => length ch = frames) chs ->
    foldl (decode_channel dataInt16 numChannels frameCount)
          (Returns (mkAudioBuffer rate chs)) (seq k m)
    = Returns (mkAudioBuffer rate
        (take k chs ++
         ((fun channel =>
             (fun i => over_32768 (dataInt16 !! (i * numChannels + channel)))
               <$> seq 0 frames) <$> seq k m))).
Proof.
  intros Htrip. induction m as [|m IH]; intros k chs Hlen Hall; simpl.
  - rewrite app_nil_r, take_ge; [done | lia].
  - destruct (lookup_lt_is_Some_2 chs k ltac:(lia)) as [ch Hch].
    rewrite Hch, Htrip. simpl.
    assert (Hchlen : length ch = frames).
    { rewrite Forall_lookup in Hall. by eapply Hall. }
    rewrite fill_channel_all by done.
    rewrite IH.
    + rewrite (take_S_r _ k _ (list_lookup_insert_eq chs k _ ltac:(lia))).
      rewrite take_insert_ge by lia.
      by rewrite <- app_assoc.
    + rewrite length_insert. lia.
    + apply Forall_insert; [done|].
      by rewrite length_fmap, length_seq.
Qed.

Lemma over_32768_range (s : Z) :
  int16 s -> (-1 <= inject_Z s / 32768 /\ inject_Z s / 32768 < 1)%Q.
Proof.
  unfold int16, Qle, Qlt. simpl. lia.
Qed.

(** The buffer that [decodeAudioData] returns when [data.buffer] holds a
    PCM16 payload and [createBuffer] hands out a buffer of the shape it was
    asked for. *)
Lemma decodeAudioData_deinterleaves (ctx : AudioContext) (rate : Z)
    (samples : list Z) (C frames : nat) (blank : AudioBuffer) :
  Forall int16 samples ->
  0 < C ->
  length samples = frames * C ->
  createBuffer ctx C (JS.div (length samples) C) rate = Some blank ->
  length (channels blank) = C ->
  Forall (fun ch => length ch = frames) (channels blank) ->
  forall data, buffer data = pcm16_le samples ->
  decodeAudioData data ctx rate C
  = Returns (mkAudioBuffer (sampleRate blank)
      ((fun channel =>
          (fun i => over_32768 (samples !! (i * C + channel))) <$> seq 0 frames)
         <$> seq 0 C)).
Proof.
  intros Hint HC Hlen Hblank Hchans Hframes data Hdata.
  pose proof (trip_count_div frames C HC) as Htrip. rewrite <- Hlen in Htrip.
  unfold decodeAudioData. rewrite Hdata.
  rewrite new_Int16Array_pcm16_le by done. cbv zeta. rewrite Hblank.
  destruct blank as [rate0 chs]. simpl in Hchans, Hframes.
  rewrite (foldl_decode_channel samples C frames _ rate0 C Htrip 0 chs) by done.
  by rewrite take_0.
Qed.

(** The context of the Web Audio standard hands out such a buffer when at
    least one frame is asked for. *)
Lemma webaudio_createBuffer_shape (frames C : nat) (rate : Z) :
  0 < C -> 0 < frames ->
  createBuffer webaudio C (JS.div (frames * C) C) rate
  = Some (mkAudioBuffer rate (replicate C (replicate frames (F32 0)))).
Proof.
  intros HC Hframes. simpl. unfold webaudio_createBuffer.
  assert (Hlen : number_to_length (JS.div (frames * C) C) = frames).
  { destruct C as [|c]; [lia|].
    unfold JS.div, number_to_length, Qfloor.
    replace (Z.pos (Pos.of_nat (S c))) with (Z.of_nat (S c))
      by (rewrite <- positive_nat_Z, Nat2Pos.id; done).
    rewrite Nat2Z.inj_mul, Z.div_mul by lia. lia. }
  rewrite Hlen. destruct C; [lia|]. destruct frames; [lia|]. done.
Qed.

Lemma decodeAudioData_webaudio (rate : Z) (samples : list Z) (C frames : nat) :
  Forall int16 samples ->
  0 < C -> 0 < frames ->
  length samples = frames * C ->
  decodeAudioData (Uint8Array_of (pcm16_le samples)) webaudio rate C
  = Returns (mkAudioBuffer rate
      ((fun channel =>
          (fun i => over_32768 (samples !! (i * C + channel))) <$> seq 0 frames)
         <$> seq 0 C)).
Proof.
  intros Hint HC Hframes Hlen.
  rewrite (decodeAudioData_deinterleaves webaudio rate samples C frames
             (mkAudioBuffer rate (replicate C (replicate frames (F32 0)))));
    try done.
  - rewrite Hlen. by apply webaudio_createBuffer_shape.
  - apply length_replicate.
  - apply Forall_replicate. apply length_replicate.
Qed.

(** The standard's context refuses a buffer without frames, so that an
    empty payload is not decoded but rejected. *)
Lemma decodeAudioData_webaudio_empty :
  decodeAudioData (Uint8Array_of []) webaudio 24000 1
  = Throws (new_Error "NotSupportedError").
Proof. reflexivity. Qed.

(** C1, as the code has it. A [Uint8Array] that spans its buffer and
    holds [N >= 1] 16-bit samples, low byte first, interleaved over [C]
    channels with [C] dividing [N], is decoded into [C] channels of [N / C]
    frames; frame [i] of channel [c] is sample [i * C + c] divided by
    [32768], unchanged otherwise, and lies in [[-1, 1)]. The buffer is the
    one [createBuffer] hands out, which is assumed to have the shape that
    was asked for. *)
Theorem decodeAudioData_pcm16 (data : Uint8Array) (ctx : AudioContext) (rate : Z)
    (samples : list Z) (C : nat) (blank : AudioBuffer) :
  byteOffset data = 0 ->
  byteLength data = length (buffer data) ->
  elements data = pcm16_le samples ->
  Forall int16 samples ->
  0 < length samples ->
  0 < C ->
  Nat.divide C (length samples) ->
  createBuffer ctx C (JS.div (length samples) C) rate = Some blank ->
  length (channels blank) = C ->
  Forall (fun ch => length ch = length samples / C) (channels blank) ->
  exists buffer,
    decodeAudioData data ctx rate C = Returns buffer /\
    length (channels buffer) = C /\
    forall c, c < C ->
      exists channelData,
        channels buffer !! c = Some channelData /\
        length channelData = length samples / C /\
        forall i, i < length samples / C ->
          exists s,
            samples !! (i * C + c) = Some s /\
            channelData !! i = Some (F32 (inject_Z s / 32768)) /\
            (-1 <= inject_Z s / 32768 /\ inject_Z s / 32768 < 1)%Q.
Proof.
  intros Hoff Hspan Hdata Hint _ HC [frames Hdiv] Hblank Hchans Hframes.
  rewrite elements_whole in Hdata by done.
  assert (Hq : length samples / C = frames) by (rewrite Hdiv; apply Nat.div_mul; lia).
  rewrite Hq in *.
  rewrite (decodeAudioData_deinterleaves ctx rate samples C frames blank) by done.
  eexists. split; [done|]. simpl channels.
  split; [by rewrite length_fmap, length_seq|].
  intros c Hc. eexists. split.
  { rewrite list_lookup_fmap, lookup_seq_lt by done. done. }
  split; [by rewrite length_fmap, length_seq|].
  intros i Hi.
  assert (Hidx : i * C + c < length samples) by nia.
  destruct (lookup_lt_is_Some_2 samples _ Hidx) as [s Hs].
  exists s. split; [done|]. split.
  - rewrite list_lookup_fmap, lookup_seq_lt by done. simpl. by rewrite Hs.
  - apply over_32768_range. rewrite Forall_lookup in Hint. by eapply Hint.
Qed.

(** ** Running the monadic code *)

Ltac run_unfold :=
  unfold App.processImage, App.onload, App.stages, App.on_error,
    App.handleApiKeySelection, App.stopExperience,
    GeminiService.identifyLandmark, GeminiService.getLandmarkHistory,
    GeminiService.generateNarration, GeminiService.call,
    not_awaited, try_catch, createBufferSource,
    setState, setError, setAnalysis, setImagePreview, setIsApiKeyChecked,
    set_audioContextRef, set_audioSourceRef,
    emit, lift, throw, get, modify, mbind, mret, Run_bind, Run_ret in *.

Lemma str_eqb_eq (a b : jsstring) : str_eqb a b = true <-> a = b.
Proof.
  revert b. induction a as [|x a IH]; intros [|y b]; simpl; try (split; congruence).
  rewrite andb_true_iff, N.eqb_eq, IH. split; [intros []|intros [=]]; by subst.
Qed.

Lemma str_eqb_neq (a b : jsstring) : a <> b -> str_eqb a b = false.
Proof.
  intros Hne. destruct (str_eqb a b) eqn:E; [|done].
  by apply str_eqb_eq in E.
Qed.

(** With one channel the loops of the decoder come to an end. *)
Lemma decodeAudioData_mono_ends (data : Uint8Array) (ctx : AudioContext) (rate : Z) :
  decodeAudioData data ctx rate 1 <> Diverges.
Proof.
  unfold decodeAudioData, new_Int16Array.
  destruct (Nat.even (length (buffer data))); [|done].
  cbv zeta. destruct (createBuffer ctx 1 _ rate) as [blank|]; [|done].
  simpl. destruct (channels blank !! 0); done.
Qed.

(** What a call of [playAudio] that nobody awaits does: it stops the node
    of the previous playback first, creates the audio context when there is
    none, and then either starts a new node, which becomes the current one,
    or gives up with a rejection that goes unhandled. *)
Lemma playAudio_run (P : Platform) (base64Audio : jsstring) (c : Component) :
  exists c' mid last,
    not_awaited (App.playAudio P base64Audio) c
    = (Returns tt, c', stops (audioSourceRef c) ++ mid ++ [last]) /\
    state c' = state c /\ error c' = error c /\ analysis c' = analysis c /\
    imagePreview c' = imagePreview c /\ isApiKeyChecked c' = isApiKeyChecked c /\
    (mid = [] \/ mid = [NewAudioContext 24000]) /\
    ((exists buffer, last = SourceStart (nodes c) buffer /\
                     audioSourceRef c' = Some (nodes c)) \/
     (exists e, last = UnhandledRejection e /\
                audioSourceRef c' = audioSourceRef c)).
Proof.
  unfold App.playAudio. run_unfold.
  destruct c as [st er an im ck ctxr src n]. simpl.
  assert (Hb64 : decodeBase64 (atob P) base64Audio <> Diverges)
    by (unfold decodeBase64; destruct (atob P base64Audio); done).
  destruct src as [node|], ctxr as [ctx|]; simpl;
    destruct (decodeBase64 (atob P) base64Audio) as [decoded|e|]; try done; simpl;
    try match goal with
    | |- context [decodeAudioData decoded ?k 24000 1] =>
        pose proof (decodeAudioData_mono_ends decoded k 24000);
        destruct (decodeAudioData decoded k 24000 1) as [buffer|e|]; try done; simpl
    end;
    eexists; (exists [] + exists [NewAudioContext 24000]); eexists;
    (split; [reflexivity|]); simpl; eauto 12.
Qed.

(** ** The three calls *)

Lemma identifyLandmark_run (P : Platform) (b : jsstring) (c : Component) :
  GeminiService.identifyLandmark P b c =
  (match generateContent P (GeminiService.identify_request b) with
   | Returns response => Returns (or_else (trim <$> GenAI.text response) (lit "Unknown"))
   | Throws e => Throws e
   | Diverges => Diverges
   end, c, [GenerateContent (GeminiService.identify_request b)]).
Proof.
  run_unfold. destruct (generateContent P _); reflexivity.
Qed.

Lemma getLandmarkHistory_run (P : Platform) (landmark : jsstring) (c : Component) :
  GeminiService.getLandmarkHistory P landmark c =
  (match generateContent P (GeminiService.history_request landmark) with
   | Returns response =>
       match GeminiService.extract_sources response with
       | Returns sources =>
           Returns (or_else (GenAI.text response) (lit "History unavailable."), sources)
       | Throws e => Throws e
       | Diverges => Diverges
       end
   | Throws e => Throws e
   | Diverges => Diverges
   end, c, [GenerateContent (GeminiService.history_request landmark)]).
Proof.
  run_unfold. destruct (generateContent P _) as [response| |]; try reflexivity.
  simpl. destruct (GeminiService.extract_sources response); reflexivity.
Qed.

Lemma generateNarration_run (P : Platform) (text : jsstring) (c : Component) :
  GeminiService.generateNarration P text c =
  (match generateContent P (GeminiService.narration_request text) with
   | Returns response =>
       match GeminiService.audio_of response with
       | Some (x :: s) => Returns (x :: s)
       | _ => Throws (new_Error "Audio generation failed")
       end
   | Throws e => Throws e
   | Diverges => Diverges
   end, c, [GenerateContent (GeminiService.narration_request text)]).
Proof.
  run_unfold. destruct (generateContent P _) as [response| |]; try reflexivity.
  simpl. destruct (GeminiService.audio_of response) as [[|x s]|]; reflexivity.
Qed.

(** The [try] block, call by call. *)
Lemma stages_run (P : Platform) (base64 : jsstring) (c : Component) :
  App.stages P base64 c =
  let '(r1, c1, t1) := GeminiService.identifyLandmark P base64 c in
  match r1 with
  | Returns name =>
      if str_eqb name (lit "Unknown")
      then (Throws (new_Error "Could not identify a landmark in this photo."), c1, t1)
      else
        let '(_, c2, t2) := setState SEARCHING_HISTORY c1 in
        let '(r3, c3, t3) := GeminiService.getLandmarkHistory P name c2 in
        match r3 with
        | Returns found =>
            let '(_, c4, t4) := setState GENERATING_AUDIO c3 in
            let '(r5, c5, t5) := GeminiService.generateNarration P found.1 c4 in
            match r5 with
            | Returns audioData =>
                let '(_, c6, t6) :=
                  setAnalysis
                    (Some (mkAnalysis name found.1 found.2 (Some audioData))) c5 in
                let '(_, c7, t7) := setState PLAYING c6 in
                let '(r8, c8, t8) := not_awaited (App.playAudio P audioData) c7 in
                (r8, c8, t1 ++ t2 ++ t3 ++ t4 ++ t5 ++ t6 ++ t7 ++ t8)
            | Throws e => (Throws e, c5, t1 ++ t2 ++ t3 ++ t4 ++ t5)
            | Diverges => (Diverges, c5, t1 ++ t2 ++ t3 ++ t4 ++ t5)
            end
        | Throws e => (Throws e, c3, t1 ++ t2 ++ t3)
        | Diverges => (Diverges, c3, t1 ++ t2 ++ t3)
        end
  | Throws e => (Throws e, c1, t1)
  | Diverges => (Diverges, c1, t1)
  end.
Proof.
  unfold App.stages.
  unfold mbind at 1, Run_bind at 1.
  destruct (GeminiService.identifyLandmark P base64 c) as [[[name|e|] c1] t1]; try done.
  destruct (str_eqb name (lit "Unknown")) eqn:Hname.
  { run_unfold. simpl. by rewrite app_nil_r. }
  unfold mbind, Run_bind, mret, Run_ret, throw, lift. simpl.
  destruct (GeminiService.getLandmarkHistory P name _) as [[[found|e|] c3] t3]; try done.
  simpl.
  destruct (GeminiService.generateNarration P _ _) as [[[audioData|e|] c5] t5];
    try (by rewrite ?app_nil_r, ?app_assoc).
  simpl.
  destruct (not_awaited _ _) as [[r8 c8] t8].
  by rewrite ?app_nil_r, <- ?app_assoc.
Qed.

(** ** The handler and the entry point *)

Lemma on_error_run (err : Error) (c : Component) :
  App.on_error err c =
  if App.credential_expired err
  then
    (Returns tt,
     mkComponent ERROR
       (Some (lit "API key session expired. Please select your key again."))
       (analysis c) (imagePreview c) true
       (audioContextRef c) (audioSourceRef c) (nodes c),
     [SetError (Some (lit "API key session expired. Please select your key again."));
      OpenSelectKey; SetIsApiKeyChecked true; SetState ERROR])
  else
    (Returns tt,
     mkComponent ERROR
       (Some (or_else (message err) (lit "An unexpected error occurred.")))
       (analysis c) (imagePreview c) (isApiKeyChecked c)
       (audioContextRef c) (audioSourceRef c) (nodes c),
     [SetError (Some (or_else (message err) (lit "An unexpected error occurred.")));
      SetState ERROR]).
Proof.
  run_unfold. destruct (App.credential_expired err); reflexivity.
Qed.

Lemma processImage_run (P : Platform) (c : Component) (base64 : jsstring) :
  key_ready P c ->
  readAsDataURL P = Some base64 ->
  App.processImage P c =
  match App.stages P base64 (loaded c base64) with
  | (Throws err, c1, t1) =>
      let '(r, c2, t2) := App.on_error err c1 in
      (r, c2, submission base64 ++ t1 ++ t2)
  | (r, c1, t1) => (r, c1, submission base64 ++ t1)
  end.
Proof.
  intros Hkey Hread.
  assert (Hgate : negb (hasSelectedApiKey P) && negb (isApiKeyChecked c) = false).
  { destruct Hkey as [-> | ->]; [done | by rewrite andb_false_r]. }
  unfold App.processImage, App.onload, try_catch.
  unfold mbind at 1 2, Run_bind at 1 2, emit at 1, get at 1. simpl.
  rewrite Hgate, Hread.
  unfold setState, setError, setAnalysis, setImagePreview at 1.
  unfold mbind, Run_bind, emit, modify. simpl.
  fold (loaded c base64).
  destruct (App.stages P base64 (loaded c base64)) as [[[[]|err|] c1] t1]; try done.
  destruct (App.on_error err c1) as [[r c2] t2]. done.
Qed.

Lemma processImage_no_load (P : Platform) (c : Component) :
  key_ready P c ->
  readAsDataURL P = None ->
  App.processImage P c =
  (Returns tt,
   mkComponent LOADING_IMAGE None None (imagePreview c) (isApiKeyChecked c)
     (audioContextRef c) (audioSourceRef c) (nodes c),
   [HasSelectedApiKey; SetState LOADING_IMAGE; SetError None; SetAnalysis None]).
Proof.
  intros Hkey Hread.
  assert (Hgate : negb (hasSelectedApiKey P) && negb (isApiKeyChecked c) = false).
  { destruct Hkey as [-> | ->]; [done | by rewrite andb_false_r]. }
  run_unfold. simpl. by rewrite Hgate, Hread.
Qed.

(** Without a key, and without a key selection earlier on, the call only
    opens the key selection: the image is not processed and nothing else
    is touched. *)
Lemma processImage_without_key (P : Platform) (c : Component) :
  hasSelectedApiKey P = false ->
  isApiKeyChecked c = false ->
  App.processImage P c =
  (Returns tt,
   mkComponent (state c) (error c) (analysis c) (imagePreview c) true
     (audioContextRef c) (audioSourceRef c) (nodes c),
   [HasSelectedApiKey; OpenSelectKey; SetIsApiKeyChecked true]).
Proof.
  intros Hkey Hchecked. run_unfold. simpl. by rewrite Hkey, Hchecked.
Qed.

Lemma identifyLandmark_returns (P : Platform) (b v : jsstring) :
  returns (GeminiService.identifyLandmark P b) v ->
  forall c, GeminiService.identifyLandmark P b c
            = (Returns v, c, [GenerateContent (GeminiService.identify_request b)]).
Proof.
  intros H c. specialize (H c). rewrite identifyLandmark_run in *. simpl in H.
  by rewrite H.
Qed.

Lemma getLandmarkHistory_returns (P : Platform) (n : jsstring) (v : jsstring * list Source) :
  returns (GeminiService.getLandmarkHistory P n) v ->
  forall c, GeminiService.getLandmarkHistory P n c
            = (Returns v, c, [GenerateContent (GeminiService.history_request n)]).
Proof.
  intros H c. specialize (H c). rewrite getLandmarkHistory_run in *. simpl in H.
  by rewrite H.
Qed.

Lemma generateNarration_returns (P : Platform) (t v : jsstring) :
  returns (GeminiService.generateNarration P t) v ->
  forall c, GeminiService.generateNarration P t c
            = (Returns v, c, [GenerateContent (GeminiService.narration_request t)]).
Proof.
  intros H c. specialize (H c). rewrite generateNarration_run in *. simpl in H.
  by rewrite H.
Qed.

(** The message of a stage that gave up on its own is not the one of an
    expired credential. *)
Lemma not_identified_is_generic :
  App.credential_expired (new_Error "Could not identify a landmark in this photo.") = false.
Proof. reflexivity. Qed.

Lemma no_audio_is_generic :
  App.credential_expired (new_Error "Audio generation failed") = false.
Proof. reflexivity. Qed.

(** C2. When [identifyLandmark] returns exactly ["Unknown"], the run ends
    in [ERROR] with the message "Could not identify a landmark in this
    photo."; the identify request is the only call made to the service:
    neither the research nor the narration request is sent. *)
Theorem unknown_landmark_fails (P : Platform) (c : Component) (base64 : jsstring) :
  key_ready P c ->
  readAsDataURL P = Some base64 ->
  returns (GeminiService.identifyLandmark P base64) (lit "Unknown") ->
  exists c' trace,
    App.processImage P c = (Returns tt, c', trace) /\
    trace = (submission base64 ++
             [GenerateContent (GeminiService.identify_request base64);
              SetError (Some (lit "Could not identify a landmark in this photo."));
              SetState ERROR]) /\
    state c' = ERROR /\
    error c' = Some (lit "Could not identify a landmark in this photo.") /\
    analysis c' = None /\
    (forall r, In (GenerateContent r) trace -> r = GeminiService.identify_request base64).
Proof.
  intros Hkey Hread Hid.
  rewrite (processImage_run P c base64 Hkey Hread), stages_run.
  rewrite (identifyLandmark_returns _ _ _ Hid).
  replace (str_eqb (lit "Unknown") (lit "Unknown")) with true by reflexivity.
  rewrite on_error_run, not_identified_is_generic.
  eexists _, _. split; [reflexivity|]. split; [reflexivity|].
  repeat split. simpl. intros r Hr.
  repeat (destruct Hr as [Hr|Hr]; [congruence|]). done.
Qed.

(** ** The research and narration wrappers *)

Lemma array_map_to_source (chunks : list GenAI.GroundingChunk) :
  GeminiService.array_map GeminiService.to_source (List.filter GeminiService.has_web chunks)
  = Returns ((fun w => mkSource (GenAI.title w) (GenAI.uri w)) <$> web_references chunks).
Proof.
  unfold web_references.
  induction chunks as [|[[w|]] chunks IH]; simpl; [done| |done].
  fold (omap GenAI.web chunks). by rewrite IH.
Qed.

Lemma extract_sources_returns (response : GenAI.GenerateContentResponse) :
  GeminiService.extract_sources response
  = Returns ((fun w => mkSource (GenAI.title w) (GenAI.uri w))
               <$> web_references (default [] (GeminiService.groundingChunks_of response))).
Proof.
  unfold GeminiService.extract_sources.
  destruct (GeminiService.groundingChunks_of response) as [chunks|]; [|done].
  apply array_map_to_source.
Qed.

Lemma audio_of_no_payload (response : GenAI.GenerateContentResponse) :
  audio_payloads response = [] ->
  GeminiService.audio_of response = None \/ GeminiService.audio_of response = Some [].
Proof.
  unfold audio_payloads, GeminiService.audio_of.
  destruct (GenAI.candidates response) as [[|c0 cands]|]; simpl; auto.
  destruct (GenAI.content c0) as [ct|]; simpl; auto.
  destruct (GenAI.parts ct) as [[|p0 ps]|]; simpl; auto.
  destruct (GenAI.inlineData p0) as [blob|]; simpl; auto.
  destruct (GenAI.data blob) as [[|x s]|]; simpl; auto.
  discriminate.
Qed.

(** C5. The sources that [getLandmarkHistory] returns are built from the
    web references of the grounding chunks, one source per reference, in
    the order of the chunks, with [title] and [uri] as they are in the
    reference; chunks without a web reference leave no trace and raise no
    error. *)
Theorem sources_are_the_web_references (P : Platform) (landmark : jsstring)
    (response : GenAI.GenerateContentResponse) (chunks : list GenAI.GroundingChunk) :
  generateContent P (GeminiService.history_request landmark) = Returns response ->
  GeminiService.groundingChunks_of response = Some chunks ->
  GeminiService.extract_sources response
  = Returns ((fun w => mkSource (GenAI.title w) (GenAI.uri w)) <$> web_references chunks) /\
  returns (GeminiService.getLandmarkHistory P landmark)
    (or_else (GenAI.text response) (lit "History unavailable."),
     (fun w => mkSource (GenAI.title w) (GenAI.uri w)) <$> web_references chunks).
Proof.
  intros Hcall Hchunks.
  pose proof (extract_sources_returns response) as Hsrc.
  rewrite Hchunks in Hsrc. simpl in Hsrc.
  split; [done|].
  intros c. by rewrite getLandmarkHistory_run, Hcall, Hsrc.
Qed.

(** C6, as the code has it. The source built for a web reference carries
    the title of the reference as it is: an empty title stays the empty
    string and a missing title stays missing; no error is raised. *)
Theorem source_title_is_upstream_title
    (response : GenAI.GenerateContentResponse) (chunks : list GenAI.GroundingChunk)
    (i : nat) (w : GenAI.GroundingChunkWeb) :
  GeminiService.groundingChunks_of response = Some chunks ->
  web_references chunks !! i = Some w ->
  exists srcs src,
    GeminiService.extract_sources response = Returns srcs /\
    srcs !! i = Some src /\
    title src = GenAI.title w /\
    uri src = GenAI.uri w /\
    (GenAI.title w = Some [] -> title src = Some []) /\
    (GenAI.title w = None -> title src = None).
Proof.
  intros Hchunks Hw.
  pose proof (extract_sources_returns response) as Hsrc.
  rewrite Hchunks in Hsrc. simpl in Hsrc.
  eexists _, (mkSource (GenAI.title w) (GenAI.uri w)).
  split; [exact Hsrc|].
  split; [by rewrite list_lookup_fmap, Hw|].
  simpl. auto.
Qed.

(** C4. When the research response has no text, or an empty one,
    [getLandmarkHistory] returns the history "History unavailable." instead
    of failing, and the run goes on to the narration stage, which is asked
    to read that text. *)
Theorem missing_history_defaults (P : Platform) (c : Component) (base64 name : jsstring)
    (response : GenAI.GenerateContentResponse) :
  key_ready P c ->
  readAsDataURL P = Some base64 ->
  returns (GeminiService.identifyLandmark P base64) name ->
  name <> lit "Unknown" ->
  generateContent P (GeminiService.history_request name) = Returns response ->
  GenAI.text response = None \/ GenAI.text response = Some [] ->
  exists sources,
    returns (GeminiService.getLandmarkHistory P name) (lit "History unavailable.", sources) /\
    exists r c' rest,
      App.processImage P c
      = (r, c',
         submission base64 ++
         [GenerateContent (GeminiService.identify_request base64);
          SetState SEARCHING_HISTORY;
          GenerateContent (GeminiService.history_request name);
          SetState GENERATING_AUDIO;
          GenerateContent (GeminiService.narration_request (lit "History unavailable."))]
         ++ rest).
Proof.
  intros Hkey Hread Hid Hname Hcall Htext.
  assert (Hhist : or_else (GenAI.text response) (lit "History unavailable.")
                  = lit "History unavailable.")
    by (destruct Htext as [-> | ->]; reflexivity).
  assert (Hret : returns (GeminiService.getLandmarkHistory P name)
                   (lit "History unavailable.",
                    (fun w => mkSource (GenAI.title w) (GenAI.uri w))
                      <$> web_references
                            (default [] (GeminiService.groundingChunks_of response)))).
  { intros c0.
    by rewrite getLandmarkHistory_run, Hcall, extract_sources_returns, Hhist. }
  eexists. split; [exact Hret|].
  rewrite (processImage_run P c base64 Hkey Hread), stages_run.
  rewrite (identifyLandmark_returns _ _ _ Hid), (str_eqb_neq _ _ Hname).
  unfold setState at 1, mbind, Run_bind, emit, modify. cbv beta iota zeta.
  rewrite (getLandmarkHistory_returns _ _ _ Hret).
  unfold setState at 1, mbind, Run_bind, emit, modify. cbv beta iota zeta.
  rewrite generateNarration_run. cbn [fst snd].
  match goal with
  | |- context [match ?x with Returns _ => _ | Throws _ => _ | Diverges => _ end] =>
      destruct x as [audioData|e|]
  end.
  - unfold setAnalysis, setState, mbind, Run_bind, emit, modify. cbv beta iota zeta.
    match goal with
    | |- context [not_awaited (App.playAudio P ?a) ?k] =>
        destruct (playAudio_run P a k) as (c8 & mid & last & -> & _)
    end.
    eexists _, _, _. simpl. reflexivity.
  - destruct (App.on_error e _) as [[r2 c2] t2].
    eexists _, _, _. simpl. reflexivity.
  - eexists _, _, _. simpl. reflexivity.
Qed.

(** C3. When the narration response holds no audio payload,
    [generateNarration] throws "Audio generation failed"; the run ends in
    [ERROR] with that message, the stage [PLAYING] is never entered and no
    analysis is published. *)
Theorem missing_audio_fails (P : Platform) (c : Component)
    (base64 name history : jsstring) (sources : list Source)
    (response : GenAI.GenerateContentResponse) :
  key_ready P c ->
  readAsDataURL P = Some base64 ->
  returns (GeminiService.identifyLandmark P base64) name ->
  name <> lit "Unknown" ->
  returns (GeminiService.getLandmarkHistory P name) (history, sources) ->
  generateContent P (GeminiService.narration_request history) = Returns response ->
  audio_payloads response = [] ->
  throws (GeminiService.generateNarration P history) (new_Error "Audio generation failed") /\
  exists c' trace,
    App.processImage P c = (Returns tt, c', trace) /\
    state c' = ERROR /\
    error c' = Some (lit "Audio generation failed") /\
    analysis c' = None /\
    ~ In (SetState PLAYING) trace /\
    published trace = [None].
Proof.
  intros Hkey Hread Hid Hname Hhist Hcall Hnone.
  assert (Hthrow : forall c0, GeminiService.generateNarration P history c0
                     = (Throws (new_Error "Audio generation failed"), c0,
                        [GenerateContent (GeminiService.narration_request history)])).
  { intros c0. rewrite generateNarration_run, Hcall.
    by destruct (audio_of_no_payload response Hnone) as [-> | ->]. }
  split.
  { intros c0. by rewrite Hthrow. }
  rewrite (processImage_run P c base64 Hkey Hread), stages_run.
  rewrite (identifyLandmark_returns _ _ _ Hid), (str_eqb_neq _ _ Hname).
  unfold setState at 1, mbind, Run_bind, emit, modify. cbv beta iota zeta.
  rewrite (getLandmarkHistory_returns _ _ _ Hhist).
  unfold setState at 1, mbind, Run_bind, emit, modify. cbv beta iota zeta.
  cbn [fst snd]. rewrite Hthrow.
  rewrite on_error_run, no_audio_is_generic.
  eexists _, _. split; [reflexivity|]. simpl.
  repeat split.
  intros Hin. repeat (destruct Hin as [Hin|Hin]; [discriminate|]). done.
Qed.

(** ** Every way through the [try] block *)

Lemma or_else_nonempty (v : option jsstring) (d : jsstring) :
  d <> [] -> or_else v d <> [].
Proof. by destruct v as [[|x s]|]. Qed.

(** Either the block does not complete, having made only stage changes and
    service calls, or all three calls returned and it published the
    analysis, entered [PLAYING] and called [playAudio], in that order. *)
Lemma stages_cases (P : Platform) (base64 : jsstring) (c : Component) :
  (exists r c1 t1,
     App.stages P base64 c = (r, c1, t1) /\
     r <> Returns tt /\
     Forall quiet t1 /\
     analysis c1 = analysis c /\ error c1 = error c /\
     isApiKeyChecked c1 = isApiKeyChecked c /\
     audioSourceRef c1 = audioSourceRef c /\
     (state c1 = state c \/ state c1 = SEARCHING_HISTORY \/ state c1 = GENERATING_AUDIO))
  \/
  (exists name history sources audioData q c1 mid last,
     App.stages P base64 c
     = (Returns tt, c1,
        q ++ [SetAnalysis (Some (mkAnalysis name history sources (Some audioData)));
              SetState PLAYING]
          ++ stops (audioSourceRef c) ++ mid ++ [last]) /\
     returns (GeminiService.identifyLandmark P base64) name /\
     name <> lit "Unknown" /\ name <> [] /\
     returns (GeminiService.getLandmarkHistory P name) (history, sources) /\
     history <> [] /\
     returns (GeminiService.generateNarration P history) audioData /\
     audioData <> [] /\
     Forall quiet q /\
     state c1 = PLAYING /\
     analysis c1 = Some (mkAnalysis name history sources (Some audioData)) /\
     error c1 = error c /\
     isApiKeyChecked c1 = isApiKeyChecked c /\
     (mid = [] \/ mid = [NewAudioContext 24000]) /\
     ((exists buffer, last = SourceStart (nodes c) buffer /\
                      audioSourceRef c1 = Some (nodes c)) \/
      (exists e, last = UnhandledRejection e /\
                 audioSourceRef c1 = audioSourceRef c))).
Proof.
  pose proof (stages_run P base64 c) as Hrun.
  rewrite identifyLandmark_run in Hrun.
  destruct (generateContent P (GeminiService.identify_request base64))
    as [r1|e|] eqn:H1;
    [|left; eexists _, _, _; split; [exact Hrun|];
      repeat split; auto; by repeat constructor ..].
  set (name := or_else (trim <$> GenAI.text r1) (lit "Unknown")) in *.
  destruct (str_eqb name (lit "Unknown")) eqn:Hname.
  { left. eexists _, _, _. split; [exact Hrun|].
    repeat split; auto; by repeat constructor. }
  unfold setState at 1, mbind, Run_bind, emit, modify in Hrun.
  cbv beta iota zeta in Hrun.
  rewrite getLandmarkHistory_run in Hrun.
  destruct (generateContent P (GeminiService.history_request name))
    as [r2|e|] eqn:H2;
    [|left; eexists _, _, _; split; [exact Hrun|];
      repeat split; auto; by repeat constructor ..].
  rewrite extract_sources_returns in Hrun.
  set (sources := (fun w => mkSource (GenAI.title w) (GenAI.uri w)) <$> _) in *.
  set (history := or_else (GenAI.text r2) (lit "History unavailable.")) in *.
  unfold setState at 1, mbind, Run_bind, emit, modify in Hrun.
  cbv beta iota zeta in Hrun.
  cbn [fst snd] in Hrun. rewrite generateNarration_run in Hrun.
  destruct (generateContent P (GeminiService.narration_request history))
    as [r3|e|] eqn:H3;
    [|left; eexists _, _, _; split; [exact Hrun|];
      repeat split; auto; by repeat constructor ..].
  destruct (GeminiService.audio_of r3) as [[|x s]|] eqn:Haudio;
    [left; eexists _, _, _; split; [exact Hrun|];
     repeat split; auto; by repeat constructor
    | |left; eexists _, _, _; split; [exact Hrun|];
       repeat split; auto; by repeat constructor].
  right.
  unfold setAnalysis, setState, mbind, Run_bind, emit, modify in Hrun.
  cbv beta iota zeta in Hrun.
  match type of Hrun with
  | context [not_awaited (App.playAudio P ?a) ?k] =>
      destruct (playAudio_run P a k)
        as (c8 & mid & last & Hplay & Hst & Her & Han & _ & Hck & Hmid & Hlast)
  end.
  rewrite Hplay in Hrun.
  simpl in Hst, Her, Han, Hck, Hlast.
  exists name, history, sources, (x :: s),
    [GenerateContent (GeminiService.identify_request base64);
     SetState SEARCHING_HISTORY;
     GenerateContent (GeminiService.history_request name);
     SetState GENERATING_AUDIO;
     GenerateContent (GeminiService.narration_request history)],
    c8, mid, last.
  split; [exact Hrun|].
  split; [intros c0; by rewrite identifyLandmark_run, H1|].
  split; [intros Heq; by rewrite (proj2 (str_eqb_eq _ _) Heq) in Hname|].
  split; [by apply or_else_nonempty|].
  split; [intros c0; rewrite getLandmarkHistory_run, H2, extract_sources_returns; done|].
  split; [by apply or_else_nonempty|].
  split; [intros c0; by rewrite generateNarration_run, H3, Haudio|].
  split; [done|].
  split; [by repeat constructor|].
  done.
Qed.

(** ** Positions in a trace *)

Section Splits.

Context {A : Type} (Q : A -> Prop).

(** An element that differs in kind from all that comes before some [x]
    occurs after [x]. *)
Lemma split_after (front rest pre post : list A) (x y : A) :
  front ++ x :: rest = pre ++ y :: post ->
  Forall Q front -> Q x -> ~ Q y ->
  In x pre.
Proof.
  revert pre. induction front as [|a front IH]; intros [|b pre] Heq Hfront Hx Hy;
    simpl in Heq; injection Heq as -> Heq.
  - done.
  - by left.
  - by inversion Hfront.
  - right. apply IH; [done| |done..]. by inversion Hfront.
Qed.

(** What precedes an element that differs in kind from the whole back
    part lies in the front part. *)
Lemma split_within (front back pre post : list A) (y z : A) :
  front ++ back = pre ++ y :: post ->
  Forall Q back -> ~ Q y ->
  In z pre -> In z front.
Proof.
  revert pre. induction front as [|a front IH]; intros pre Heq Hback Hy Hz.
  - simpl in Heq. subst back. apply Forall_app in Hback as [_ Hback].
    by inversion Hback.
  - destruct pre as [|b pre]; [done|].
    simpl in Heq. injection Heq as -> Heq.
    destruct Hz as [->|Hz]; [by left|]. right. by eapply IH.
Qed.

End Splits.

Lemma quiet_not_audio (t : list Event) : Forall quiet t -> Forall (fun e => ~ audio e) t.
Proof.
  intros H. eapply Forall_impl; [exact H|].
  intros e; destruct e as [| |s| | | | | | | | |]; try destruct s; simpl; tauto.
Qed.

Lemma published_quiet (t : list Event) : Forall quiet t -> published t = [].
Proof.
  unfold published. induction 1 as [|e t He _ IH]; [done|].
  destruct e; try done; simpl; by rewrite IH.
Qed.

Lemma published_audio (t : list Event) : Forall audio t -> published t = [].
Proof.
  unfold published. induction 1 as [|e t He _ IH]; [done|].
  destruct e; try done; simpl; by rewrite IH.
Qed.

Lemma published_app (t1 t2 : list Event) :
  published (t1 ++ t2) = published t1 ++ published t2.
Proof. apply omap_app. Qed.

Lemma playAudio_events_audio (current : option nat) (mid : list Event) (last : Event) :
  (mid = [] \/ mid = [NewAudioContext 24000]) ->
  audio last ->
  Forall audio (stops current ++ mid ++ [last]).
Proof.
  intros Hmid Hlast.
  destruct current, Hmid as [-> | ->]; by repeat constructor.
Qed.

(** C8. When a stage fails with an error whose message contains
    "Requested entity was not found", the run ends in [ERROR], the error
    shown is the message about the expired key session, and the key
    selection is opened; for any other error the run ends in [ERROR] with
    the error's own message (or "An unexpected error occurred." when it has
    none, or an empty one) and the key selection is not opened. *)
Theorem failed_stage_handling (P : Platform) (c : Component) (base64 : jsstring)
    (err : Error) :
  key_ready P c ->
  readAsDataURL P = Some base64 ->
  throws (App.stages P base64) err ->
  exists c' trace,
    App.processImage P c = (Returns tt, c', trace) /\
    state c' = ERROR /\
    (App.credential_expired err = true ->
       error c' = Some (lit "API key session expired. Please select your key again.") /\
       In OpenSelectKey trace /\
       isApiKeyChecked c' = true) /\
    (App.credential_expired err = false ->
       error c' = Some (or_else (message err) (lit "An unexpected error occurred.")) /\
       ~ In OpenSelectKey trace /\
       isApiKeyChecked c' = isApiKeyChecked c).
Proof.
  intros Hkey Hread Hthrows.
  rewrite (processImage_run P c base64 Hkey Hread).
  specialize (Hthrows (loaded c base64)).
  destruct (stages_cases P base64 (loaded c base64))
    as [(r & c1 & t1 & Hrun & _ & Hquiet & _ & _ & Hck & _)
       |(? & ? & ? & ? & ? & ? & ? & ? & Hrun & _)];
    rewrite Hrun in Hthrows |- *; simpl in Hthrows; [subst r|done].
  rewrite on_error_run.
  destruct (App.credential_expired err).
  - eexists _, _. split; [reflexivity|]. simpl. split; [done|].
    split; [|done]. intros _. split; [done|]. split; [|done].
    right. right. right. right. right. apply in_app_iff. right. simpl. auto.
  - eexists _, _. split; [reflexivity|]. simpl. split; [done|].
    split; [done|]. intros _. split; [done|]. split; [|done].
    intros Hin. repeat (destruct Hin as [Hin|Hin]; [discriminate|]).
    apply in_app_iff in Hin as [Hin|Hin].
    + rewrite Forall_forall in Hquiet. apply list_elem_of_In in Hin.
      by apply Hquiet in Hin.
    + repeat (destruct Hin as [Hin|Hin]; [discriminate|]). done.
Qed.

(** The two ways a run can go, as far as [analysis] is concerned. *)
Lemma analysis_published_cases (P : Platform) (c : Component) :
  key_ready P c ->
  exists r c' trace,
    App.processImage P c = (r, c', trace) /\
    ((published trace = [None] /\ analysis c' = None /\ state c' <> PLAYING)
     \/
     (exists base64 name history sources audioData,
        readAsDataURL P = Some base64 /\
        returns (GeminiService.identifyLandmark P base64) name /\
        name <> lit "Unknown" /\ name <> [] /\
        returns (GeminiService.getLandmarkHistory P name) (history, sources) /\
        history <> [] /\
        returns (GeminiService.generateNarration P history) audioData /\
        audioData <> [] /\
        r = Returns tt /\
        published trace
        = [None; Some (mkAnalysis name history sources (Some audioData))] /\
        analysis c' = Some (mkAnalysis name history sources (Some audioData)) /\
        state c' = PLAYING)).
Proof.
  intros Hkey.
  destruct (readAsDataURL P) as [base64|] eqn:Hread.
  2: { rewrite (processImage_no_load P c Hkey Hread).
       eexists _, _, _. split; [reflexivity|]. left. by repeat split. }
  rewrite (processImage_run P c base64 Hkey Hread).
  destruct (stages_cases P base64 (loaded c base64))
    as [(r & c1 & t1 & Hrun & Hr & Hquiet & Han & _ & _ & _ & Hst)
       |(name & history & sources & audioData & q & c1 & mid & last & Hrun
         & Hid & Hname & Hname' & Hhist & Hhist' & Hnarr & Haudio & Hquiet
         & Hst & Han & _ & _ & Hmid & Hlast)];
    rewrite Hrun.
  - simpl in Han, Hst.
    assert (Hpub : published (submission base64 ++ t1) = [None])
      by (rewrite published_app, (published_quiet t1 Hquiet); reflexivity).
    destruct r as [[]|err|]; [done| |].
    + rewrite on_error_run.
      destruct (App.credential_expired err);
        (eexists _, _, _; split; [reflexivity|]; left;
         split; [|by split]);
        rewrite (app_assoc _ t1), published_app, Hpub; reflexivity.
    + eexists _, _, _. split; [reflexivity|]. left.
      split; [done|]. split; [done|].
      destruct Hst as [-> | [-> | ->]]; done.
  - eexists _, _, _. split; [reflexivity|]. right.
    exists base64, name, history, sources, audioData.
    repeat (split; [done|]). split; [|done].
    do 3 rewrite published_app. rewrite (published_quiet q Hquiet).
    rewrite (published_audio (stops _ ++ mid ++ [last])); [reflexivity|].
    apply playAudio_events_audio; [done|].
    by destruct Hlast as [(? & -> & _)|(? & -> & _)].
Qed.

(** The three calls having returned, the [try] block runs to its end. *)
Lemma stages_succeed (P : Platform) (base64 name history audioData : jsstring)
    (sources : list Source) (c : Component) :
  returns (GeminiService.identifyLandmark P base64) name ->
  name <> lit "Unknown" ->
  returns (GeminiService.getLandmarkHistory P name) (history, sources) ->
  returns (GeminiService.generateNarration P history) audioData ->
  exists c1 mid last,
    App.stages P base64 c
    = (Returns tt, c1,
       [GenerateContent (GeminiService.identify_request base64);
        SetState SEARCHING_HISTORY;
        GenerateContent (GeminiService.history_request name);
        SetState GENERATING_AUDIO;
        GenerateContent (GeminiService.narration_request history);
        SetAnalysis (Some (mkAnalysis name history sources (Some audioData)));
        SetState PLAYING]
       ++ stops (audioSourceRef c) ++ mid ++ [last]) /\
    state c1 = PLAYING /\
    analysis c1 = Some (mkAnalysis name history sources (Some audioData)) /\
    (mid = [] \/ mid = [NewAudioContext 24000]) /\
    audio last.
Proof.
  intros Hid Hname Hhist Hnarr.
  rewrite stages_run.
  rewrite (identifyLandmark_returns _ _ _ Hid), (str_eqb_neq _ _ Hname).
  unfold setState at 1, mbind, Run_bind, emit, modify. cbv beta iota zeta.
  rewrite (getLandmarkHistory_returns _ _ _ Hhist).
  unfold setState at 1, mbind, Run_bind, emit, modify. cbv beta iota zeta.
  cbn [fst snd]. rewrite (generateNarration_returns _ _ _ Hnarr).
  unfold setAnalysis, setState, mbind, Run_bind, emit, modify. cbv beta iota zeta.
  match goal with
  | |- context [not_awaited (App.playAudio P ?a) ?k] =>
      destruct (playAudio_run P a k)
        as (c8 & mid & last & -> & Hst & _ & Han & _ & _ & Hmid & Hlast)
  end.
  simpl in Hst, Han.
  exists c8, mid, last. split; [reflexivity|].
  repeat (split; [done|]).
  by destruct Hlast as [(? & -> & _)|(? & -> & _)].
Qed.

(** C10. In a run of the pipeline, [setAnalysis] is called with [null]
    when the image is submitted and then at most once more: after all
    three calls have returned, with the name, the history, the sources and
    the audio payload they returned, all in one value, and together with
    the stage [PLAYING]. In every other run [analysis] is [null] at the end
    and [null] is all that was ever published. Whenever the three calls
    return (and the name is not the sentinel), the run does publish that
    value and ends in [PLAYING]; whenever the [try] block throws, [null] is
    all that is published and the run ends in [ERROR]. *)
Theorem analysis_published_atomically (P : Platform) (c : Component) :
  key_ready P c ->
  exists r c' trace,
    App.processImage P c = (r, c', trace) /\
    ((published trace = [None] /\ analysis c' = None /\ state c' <> PLAYING)
     \/
     (exists base64 name history sources audioData,
        readAsDataURL P = Some base64 /\
        returns (GeminiService.identifyLandmark P base64) name /\
        name <> lit "Unknown" /\ name <> [] /\
        returns (GeminiService.getLandmarkHistory P name) (history, sources) /\
        history <> [] /\
        returns (GeminiService.generateNarration P history) audioData /\
        audioData <> [] /\
        r = Returns tt /\
        published trace
        = [None; Some (mkAnalysis name history sources (Some audioData))] /\
        analysis c' = Some (mkAnalysis name history sources (Some audioData)) /\
        state c' = PLAYING)) /\
    (forall base64 name history sources audioData,
       readAsDataURL P = Some base64 ->
       returns (GeminiService.identifyLandmark P base64) name ->
       name <> lit "Unknown" ->
       returns (GeminiService.getLandmarkHistory P name) (history, sources) ->
       returns (GeminiService.generateNarration P history) audioData ->
       r = Returns tt /\
       published trace
       = [None; Some (mkAnalysis name history sources (Some audioData))] /\
       analysis c' = Some (mkAnalysis name history sources (Some audioData)) /\
       state c' = PLAYING) /\
    (forall base64 err,
       readAsDataURL P = Some base64 ->
       throws (App.stages P base64) err ->
       r = Returns tt /\
       published trace = [None] /\
       analysis c' = None /\
       state c' = ERROR).
Proof.
  intros Hkey.
  destruct (analysis_published_cases P c Hkey) as (r & c' & trace & Hrun & Hcases).
  exists r, c', trace. split; [exact Hrun|]. split; [exact Hcases|]. split.
  - intros base64 name history sources audioData Hread Hid Hname Hhist Hnarr.
    rewrite (processImage_run P c base64 Hkey Hread) in Hrun.
    destruct (stages_succeed P base64 name history audioData sources (loaded c base64)
                Hid Hname Hhist Hnarr)
      as (c1 & mid & last & Hstages & Hst & Han & Hmid & Hlast).
    rewrite Hstages in Hrun. cbv beta iota in Hrun.
    apply pair_equal_spec in Hrun as [Hrun <-].
    apply pair_equal_spec in Hrun as [<- <-].
    split; [done|]. split; [|done].
    do 2 rewrite published_app.
    rewrite (published_audio (stops _ ++ mid ++ [last]))
      by (by apply playAudio_events_audio).
    reflexivity.
  - intros base64 err Hread Hthrows.
    rewrite (processImage_run P c base64 Hkey Hread) in Hrun.
    specialize (Hthrows (loaded c base64)).
    destruct (stages_cases P base64 (loaded c base64))
      as [(r1 & c1 & t1 & Hstages & _ & Hquiet & Han & _)
         |(? & ? & ? & ? & ? & ? & ? & ? & Hstages & _)];
      rewrite Hstages in Hthrows, Hrun; simpl in Hthrows; [subst r1|done].
    simpl in Han. rewrite on_error_run in Hrun.
    destruct (App.credential_expired err); cbv beta iota in Hrun;
      apply pair_equal_spec in Hrun as [Hrun <-];
      apply pair_equal_spec in Hrun as [<- <-];
      (split; [done|]); (split; [|by split]);
      rewrite (app_assoc _ t1), !published_app, (published_quiet t1 Hquiet);
      reflexivity.
Qed.

(** What a call of [processImage] does about a source node that is
    current when it is called: no node is stopped before the stage is reset
    to [LOADING_IMAGE]; if the run gets as far as starting a new node, the
    earlier node has been stopped before that, after the stage [PLAYING]
    was entered; and a run that does not end in [PLAYING] stops nothing and
    leaves the earlier node current. *)
Lemma previous_playback_stopped_by_playAudio (P : Platform) (c : Component)
    (node : nat) :
  key_ready P c ->
  audioSourceRef c = Some node ->
  exists r c' trace,
    App.processImage P c = (r, c', trace) /\
    (forall pre post, trace = pre ++ SetState LOADING_IMAGE :: post ->
       forall n, ~ In (SourceStop n) pre) /\
    (forall pre post m buffer, trace = pre ++ SourceStart m buffer :: post ->
       In (SourceStop node) pre /\ In (SetState PLAYING) pre) /\
    (state c' = PLAYING -> In (SourceStop node) trace) /\
    (state c' <> PLAYING ->
       (forall n, ~ In (SourceStop n) trace) /\ audioSourceRef c' = Some node).
Proof.
  intros Hkey Hnode.
  assert (Hsub : forall b, Forall (fun e => ~ audio e) (submission b))
    by (intros b; repeat constructor; simpl; tauto).
  assert (Hnone : forall (t : list Event) (c' : Component),
             Forall (fun e => ~ audio e) t ->
             state c' <> PLAYING ->
             audioSourceRef c' = Some node ->
             (forall pre post, t = pre ++ SetState LOADING_IMAGE :: post ->
                forall n, ~ In (SourceStop n) pre) /\
             (forall pre post m buffer, t = pre ++ SourceStart m buffer :: post ->
                In (SourceStop node) pre /\ In (SetState PLAYING) pre) /\
             (state c' = PLAYING -> In (SourceStop node) t) /\
             (state c' <> PLAYING ->
                (forall n, ~ In (SourceStop n) t) /\ audioSourceRef c' = Some node)).
  { intros t c' Ht Hst Href. rewrite Forall_forall in Ht.
    assert (Hno : forall e, audio e -> ~ In e t)
      by (intros e He Hin; apply list_elem_of_In in Hin; by apply Ht in Hin).
    split; [|split; [|split]].
    - intros pre post -> n Hin. apply (Hno (SourceStop n) I).
      apply in_app_iff. by left.
    - intros pre post m buffer ->. exfalso.
      apply (Hno (SourceStart m buffer) I). apply in_app_iff. right. by left.
    - done.
    - intros _. split; [|done]. intros n. by apply Hno. }
  destruct (readAsDataURL P) as [base64|] eqn:Hread.
  2: { rewrite (processImage_no_load P c Hkey Hread).
       eexists _, _, _. split; [reflexivity|].
       apply Hnone; [repeat constructor; simpl; tauto|done|done]. }
  rewrite (processImage_run P c base64 Hkey Hread).
  destruct (stages_cases P base64 (loaded c base64))
    as [(r & c1 & t1 & Hrun & Hr & Hquiet & _ & _ & _ & Href & Hst)
       |(name & history & sources & audioData & q & c1 & mid & last & Hrun
         & _ & _ & _ & _ & _ & _ & _ & Hquiet & Hst & _ & _ & _ & Hmid & Hlast)];
    rewrite Hrun.
  - simpl in Href, Hst. apply quiet_not_audio in Hquiet.
    destruct r as [[]|err|]; [done| |].
    + rewrite on_error_run.
      destruct (App.credential_expired err);
        (eexists _, _, _; split; [reflexivity|];
         apply Hnone;
         [repeat (apply Forall_app; split); auto; repeat constructor; simpl; tauto
         |done
         |simpl; by rewrite Href]).
    + eexists _, _, _. split; [reflexivity|].
      apply Hnone; [apply Forall_app; auto| |by rewrite Href].
      intros Hp. destruct Hst as [Hs | [Hs | Hs]]; rewrite Hs in Hp; done.
  - simpl stops in *. rewrite Hnode. simpl stops.
    apply quiet_not_audio in Hquiet.
    assert (Hlast' : audio last)
      by (by destruct Hlast as [(? & -> & _)|(? & -> & _)]).
    assert (Htail : Forall audio (SourceStop node :: mid ++ [last]))
      by (apply (playAudio_events_audio (Some node)); done).
    eexists _, _, _. split; [reflexivity|].
    split; [|split; [|split]].
    + intros pre post Heq n Hin.
      assert (Hin' : In (SourceStop n)
                       (submission base64 ++ q ++
                        [SetAnalysis (Some (mkAnalysis name history sources (Some audioData)));
                         SetState PLAYING])).
      { eapply (split_within audio _ (SourceStop node :: mid ++ [last]));
          [|exact Htail| |exact Hin].
        - rewrite <- Heq. by rewrite <- !app_assoc.
        - simpl. tauto. }
      apply in_app_iff in Hin' as [Hin'|Hin'].
      { specialize (Hsub base64). rewrite Forall_forall in Hsub.
        apply list_elem_of_In in Hin'. by apply Hsub in Hin'. }
      apply in_app_iff in Hin' as [Hin'|Hin'].
      { rewrite Forall_forall in Hquiet.
        apply list_elem_of_In in Hin'. by apply Hquiet in Hin'. }
      repeat (destruct Hin' as [Hin'|Hin']; [discriminate|]). done.
    + intros pre post m buffer Heq.
      assert (Hfront : Forall (fun e => ~ is_start e) (submission base64 ++ q)).
      { apply Forall_app. split.
        - repeat constructor; simpl; tauto.
        - eapply Forall_impl; [exact Hquiet|]. intros [] ?; simpl in *; tauto. }
      split.
      * eapply (split_after (fun e => ~ is_start e)
                  (submission base64 ++ q ++
                   [SetAnalysis (Some (mkAnalysis name history sources (Some audioData)));
                    SetState PLAYING]) (mid ++ [last]));
          [rewrite <- Heq; by rewrite <- !app_assoc| |simpl; tauto|simpl; tauto].
        rewrite app_assoc. apply Forall_app. split; [done|].
        repeat constructor; simpl; tauto.
      * eapply (split_after (fun e => ~ is_start e)
                  (submission base64 ++ q ++
                   [SetAnalysis (Some (mkAnalysis name history sources (Some audioData)))])
                  (SourceStop node :: mid ++ [last]));
          [rewrite <- Heq; by rewrite <- !app_assoc| |simpl; tauto|simpl; tauto].
        rewrite app_assoc. apply Forall_app. split; [done|].
        repeat constructor; simpl; tauto.
    + intros _. apply in_app_iff. right. apply in_app_iff. right.
      apply in_app_iff. right. by left.
    + intros Hp. by rewrite Hst in Hp.
Qed.

(** ** The reference [atob] *)

Lemma sextets_foreign (s : jsstring) (c : N) :
  In c s -> Base64.sextet c = None -> Base64.sextets s = None.
Proof.
  intros Hin Hc. induction s as [|x s IH]; [done|]. simpl.
  destruct Hin as [->|Hin]; [by rewrite Hc|].
  rewrite (IH Hin). by destruct (Base64.sextet x).
Qed.

Lemma strip_padding_keeps (s : jsstring) (c : N) :
  In c s -> c <> 61%N -> In c (Base64.strip_padding s).
Proof.
  intros Hin Hc. unfold Base64.strip_padding.
  destruct (Nat.eqb _ 0); [|done].
  apply in_rev in Hin.
  destruct (rev s) as [|a r] eqn:Hrev; [done|].
  destruct (N.eqb_spec a 61) as [->|_]; [|rewrite in_rev, Hrev; exact Hin].
  destruct Hin as [Heq|Hin]; [congruence|].
  destruct r as [|b r']; [done|].
  destruct (N.eqb_spec b 61) as [->|_].
  - destruct Hin as [Heq|Hin]; [congruence|]. by apply in_rev in Hin.
  - by apply in_rev in Hin.
Qed.

(** A text with a code unit that is neither in the base64 alphabet, nor
    ASCII whitespace, nor the padding sign is rejected, wherever the unit
    stands: nothing is decoded up to it. *)
Lemma atob_rejects_foreign (s : jsstring) (c : N) :
  In c s ->
  Base64.isAsciiWhitespace c = false ->
  Base64.sextet c = None ->
  c <> 61%N ->
  Base64.atob s = None.
Proof.
  intros Hin Hws Hc Hpad. unfold Base64.atob.
  destruct (Nat.eqb _ 1); [done|].
  erewrite sextets_foreign; [done| |exact Hc].
  apply strip_padding_keeps; [|done].
  apply filter_In. split; [done|]. by rewrite Hws.
Qed.

Lemma decodeBase64_rejects_foreign (s : jsstring) (c : N) :
  In c s ->
  Base64.isAsciiWhitespace c = false ->
  Base64.sextet c = None ->
  c <> 61%N ->
  exists e, decodeBase64 Base64.atob s = Throws e.
Proof.
  intros Hin Hws Hc Hpad. unfold decodeBase64.
  rewrite (atob_rejects_foreign s c) by done. eauto.
Qed.

(** *** Encoding and decoding *)
Lemma below_64 (Q : N -> Prop) :
  Forall Q (N.of_nat <$> seq 0 64) -> forall v, (v < 64)%N -> Q v.
Proof.
  intros H v Hv. rewrite Forall_forall in H. apply H.
  apply list_elem_of_fmap. exists (N.to_nat v). split; [lia|].
  apply elem_of_seq. lia.
Qed.

Lemma sextet_encode_sextet (v : N) :
  (v < 64)%N -> Base64.sextet (Base64.encode_sextet v) = Some v.
Proof.
  revert v. apply below_64. vm_compute. repeat constructor.
Qed.

Lemma sextet_small (c v : N) : Base64.sextet c = Some v -> (v < 64)%N.
Proof.
  unfold Base64.sextet.
  destruct (N.leb_spec 65 c), (N.leb_spec c 90); simpl; [intros [= <-]; lia| | |];
    (destruct (N.leb_spec 97 c), (N.leb_spec c 122); simpl; [intros [= <-]; lia| | |]);
    (destruct (N.leb_spec 48 c), (N.leb_spec c 57); simpl; [intros [= <-]; lia| | |]);
    (destruct (N.eqb_spec c 43); [intros [= <-]; lia|]);
    (destruct (N.eqb_spec c 47); [intros [= <-]; lia|]); done.
Qed.

Lemma sextet_not_whitespace (c v : N) :
  Base64.sextet c = Some v -> Base64.isAsciiWhitespace c = false.
Proof.
  intros H. unfold Base64.isAsciiWhitespace. simpl.
  repeat match goal with
         | |- context [N.eqb c ?k] =>
             destruct (N.eqb_spec c k) as [->|_]; [by vm_compute in H|]
         end.
  done.
Qed.

Lemma sextet_not_padding (c v : N) : Base64.sextet c = Some v -> c <> 61%N.
Proof. intros H ->. by vm_compute in H. Qed.

Lemma triples_ind {A} (Q : list A -> Prop) :
  Q [] -> (forall x, Q [x]) -> (forall x y, Q [x; y]) ->
  (forall x y z l, Q l -> Q (x :: y :: z :: l)) ->
  forall l, Q l.
Proof.
  intros H0 H1 H2 H3 l.
  assert (H : Q l /\ (forall x, Q (x :: l)) /\ forall x y, Q (x :: y :: l)); [|tauto].
  induction l as [|z l (IH0 & IH1 & IH2)]; [auto|].
  split; [exact (IH1 z)|]. split; [exact (fun x => IH2 x z)|].
  intros x y. by apply H3.
Qed.

Lemma quads_ind {A} (Q : list A -> Prop) :
  Q [] -> (forall x, Q [x]) -> (forall x y, Q [x; y]) -> (forall x y z, Q [x; y; z]) ->
  (forall x y z w l, Q l -> Q (x :: y :: z :: w :: l)) ->
  forall l, Q l.
Proof.
  intros H0 H1 H2 H3 H4 l.
  assert (H : Q l /\ (forall x, Q (x :: l)) /\ (forall x y, Q (x :: y :: l)) /\
              forall x y z, Q (x :: y :: z :: l)); [|tauto].
  induction l as [|w l (IH0 & IH1 & IH2 & IH3)]; [auto|].
  split; [exact (IH1 w)|]. split; [exact (fun x => IH2 x w)|].
  split; [exact (fun x y => IH3 x y w)|].
  intros x y z. by apply H4.
Qed.

(** Decoding undoes encoding, group by group. *)
Lemma octets_encode_octets (l : list N) :
  Forall (fun n => (n < 256)%N) l ->
  exists vs, Base64.sextets (Base64.encode_octets l) = Some vs /\ Base64.octets vs = l.
Proof.
  induction l as [|a|a b|a b c rest IH] using triples_ind; intros Hl.
  - by exists [].
  - apply Forall_cons in Hl as [Ha _].
    cbn [Base64.encode_octets Base64.sextets].
    rewrite !sextet_encode_sextet by lia_div.
    eexists. split; [reflexivity|]. cbn [Base64.octets]. f_equal. lia_div.
  - apply Forall_cons in Hl as [Ha Hl]. apply Forall_cons in Hl as [Hb _].
    cbn [Base64.encode_octets Base64.sextets].
    rewrite !sextet_encode_sextet by lia_div.
    eexists. split; [reflexivity|]. cbn [Base64.octets].
    f_equal; [|f_equal]; lia_div.
  - apply Forall_cons in Hl as [Ha Hl]. apply Forall_cons in Hl as [Hb Hl].
    apply Forall_cons in Hl as [Hc Hl].
    destruct (IH Hl) as (vs & Hvs & Hoct).
    cbn [Base64.encode_octets Base64.sextets].
    rewrite !sextet_encode_sextet by lia_div. rewrite Hvs.
    eexists. split; [reflexivity|]. cbn [Base64.octets]. rewrite Hoct.
    f_equal; [|f_equal; [|f_equal]]; lia_div.
Qed.

Lemma length_encode_octets (l : list N) :
  exists k,
    (length l = 3 * k /\ length (Base64.encode_octets l) = 4 * k) \/
    (length l = 3 * k + 1 /\ length (Base64.encode_octets l) = 4 * k + 2) \/
    (length l = 3 * k + 2 /\ length (Base64.encode_octets l) = 4 * k + 3).
Proof.
  induction l as [|a|a b|a b c rest (k & IH)] using triples_ind.
  - exists 0. by left.
  - exists 0. right. by left.
  - exists 0. right. by right.
  - exists (S k). cbn [Base64.encode_octets length]. lia.
Qed.

Lemma padding_cases (n k : nat) :
  (n = 3 * k -> Base64.padding n = []) /\
  (n = 3 * k + 1 -> Base64.padding n = [61; 61]%N) /\
  (n = 3 * k + 2 -> Base64.padding n = [61]%N).
Proof.
  unfold Base64.padding. repeat split; intros ->.
  - by replace ((3 - (3 * k) mod 3) mod 3) with 0 by lia_div.
  - by replace ((3 - (3 * k + 1) mod 3) mod 3) with 2 by lia_div.
  - by replace ((3 - (3 * k + 2) mod 3) mod 3) with 1 by lia_div.
Qed.

Lemma strip_padding_padded (u pad : jsstring) :
  (forall c, In c u -> c <> 61%N) ->
  pad = [] \/ pad = [61%N] \/ pad = [61; 61]%N ->
  length (u ++ pad) mod 4 = 0 ->
  Base64.strip_padding (u ++ pad) = u.
Proof.
  intros Hu Hpad Hlen. unfold Base64.strip_padding. rewrite Hlen. simpl Nat.eqb. cbv iota.
  destruct Hpad as [-> | [-> | ->]].
  - rewrite app_nil_r. destruct (rev u) as [|a r] eqn:E; [done|].
    destruct (N.eqb_spec a 61) as [->|_]; [|done].
    exfalso. apply (Hu 61%N); [|done]. apply in_rev. rewrite E. by left.
  - rewrite rev_unit. simpl N.eqb. cbv iota.
    destruct (rev u) as [|b r] eqn:E.
    + by rewrite <- (rev_involutive u), E.
    + destruct (N.eqb_spec b 61) as [->|_].
      * exfalso. apply (Hu 61%N); [|done]. apply in_rev. rewrite E. by left.
      * by rewrite <- E, rev_involutive.
  - rewrite rev_app_distr. simpl. apply rev_involutive.
Qed.

Lemma filter_all {A} (f : A -> bool) (l : list A) :
  (forall x, In x l -> f x = true) -> List.filter f l = l.
Proof.
  induction l as [|x l IH]; intros H; [done|]. simpl.
  rewrite (H x) by (by left). f_equal. apply IH. intros y Hy. apply H. by right.
Qed.

Lemma sextets_all (s : jsstring) (vs : list N) :
  Base64.sextets s = Some vs -> forall c, In c s -> exists v, Base64.sextet c = Some v.
Proof.
  intros Hs c Hin. destruct (Base64.sextet c) as [v|] eqn:E; [by exists v|].
  by rewrite (sextets_foreign s c Hin E) in Hs.
Qed.

Lemma sextets_none (s : jsstring) :
  Base64.sextets s = None -> exists c, In c s /\ Base64.sextet c = None.
Proof.
  induction s as [|x s IH]; [done|]. simpl.
  destruct (Base64.sextet x) as [v|] eqn:E; [|intros _; exists x; split; [by left|done]].
  destruct (Base64.sextets s) as [vs|]; [done|].
  intros _. destruct (IH eq_refl) as (c & Hin & Hc). exists c. split; [by right|done].
Qed.

Lemma sextets_small (s : jsstring) :
  forall vs, Base64.sextets s = Some vs ->
             Forall (fun v => (v < 64)%N) vs /\ length vs = length s.
Proof.
  induction s as [|x s IH]; intros vs; simpl.
  - intros [= <-]. by split.
  - destruct (Base64.sextet x) as [v|] eqn:E; [|done].
    destruct (Base64.sextets s) as [vs'|]; [|done].
    intros [= <-]. destruct (IH vs' eq_refl) as [Hall Hlen].
    split; [|simpl; by rewrite Hlen].
    constructor; [by eapply sextet_small|done].
Qed.

Lemma length_octets (vs : list N) :
  length (Base64.octets vs) = length vs * 3 / 4.
Proof.
  induction vs as [|a|a b|a b c|a b c d rest IH] using quads_ind; try reflexivity.
  cbn [Base64.octets length]. rewrite IH. lia_div.
Qed.

Lemma octets_small (vs : list N) :
  Forall (fun v => (v < 64)%N) vs -> Forall (fun n => (n < 256)%N) (Base64.octets vs).
Proof.
  induction vs as [|a|a b|a b c|a b c d rest IH] using quads_ind; intros H;
    cbn [Base64.octets]; repeat (apply Forall_cons in H as [? H]);
    repeat (constructor; [lia_div|]); auto.
Qed.

(** The reference [atob] decodes every encoding to the bytes encoded. *)
Lemma atob_encode (bytes : list byte) :
  Base64.atob (Base64.encode bytes) = Some (Byte.to_N <$> bytes).
Proof.
  set (l := Byte.to_N <$> bytes).
  assert (Hl : Forall (fun n => (n < 256)%N) l).
  { apply Forall_fmap, Forall_forall. intros b _. simpl.
    pose proof (Byte.to_N_bounded b). lia. }
  destruct (octets_encode_octets l Hl) as (vs & Hvs & Hoct).
  assert (Hu : forall c, In c (Base64.encode_octets l) ->
                         Base64.isAsciiWhitespace c = false /\ c <> 61%N).
  { intros c Hc. destruct (sextets_all _ _ Hvs c Hc) as [v Hv].
    split; [by eapply sextet_not_whitespace|by eapply sextet_not_padding]. }
  assert (Hpad : (Base64.padding (length bytes) = [] \/
                  Base64.padding (length bytes) = [61%N] \/
                  Base64.padding (length bytes) = [61; 61]%N) /\
                 length (Base64.encode_octets l ++ Base64.padding (length bytes)) mod 4 = 0).
  { rewrite length_app.
    destruct (length_encode_octets l) as (k & [[Hk Hlen]|[[Hk Hlen]|[Hk Hlen]]]);
      unfold l in Hk; rewrite length_fmap in Hk;
      destruct (padding_cases (length bytes) k) as (H0 & H1 & H2).
    - rewrite (H0 Hk), Hlen. split; [auto|cbn [length]; lia_div].
    - rewrite (H1 Hk), Hlen. split; [auto|cbn [length]; lia_div].
    - rewrite (H2 Hk), Hlen. split; [auto|cbn [length]; lia_div]. }
  destruct Hpad as [Hpad Hlen4].
  unfold Base64.atob, Base64.encode. fold l.
  rewrite filter_all.
  2: { intros c Hc. apply in_app_iff in Hc as [Hc|Hc].
       - by rewrite (proj1 (Hu c Hc)).
       - destruct Hpad as [Hp|[Hp|Hp]]; rewrite Hp in Hc; simpl in Hc;
           repeat (destruct Hc as [<-|Hc]; [done|]); done. }
  rewrite strip_padding_padded; [|intros c Hc; by apply Hu|tauto|done].
  assert (Hmod : Nat.eqb (length (Base64.encode_octets l) mod 4) 1 = false).
  { apply Nat.eqb_neq.
    destruct (length_encode_octets l) as (k & [[_ Hlen]|[[_ Hlen]|[_ Hlen]]]);
      rewrite Hlen; lia_div. }
  rewrite Hmod, Hvs. simpl. by rewrite Hoct.
Qed.

Lemma length_encode (bytes : list byte) : length (Base64.encode bytes) mod 4 = 0.
Proof.
  unfold Base64.encode. rewrite length_app.
  destruct (length_encode_octets (Byte.to_N <$> bytes))
    as (k & [[Hk Hlen]|[[Hk Hlen]|[Hk Hlen]]]);
    rewrite length_fmap in Hk;
    destruct (padding_cases (length bytes) k) as (H0 & H1 & H2).
  - rewrite (H0 Hk), Hlen. cbn [length]. lia_div.
  - rewrite (H1 Hk), Hlen. cbn [length]. lia_div.
  - rewrite (H2 Hk), Hlen. cbn [length]. lia_div.
Qed.

(** What the reference [atob] rejects. *)
Lemma atob_rejects_iff (s : jsstring) :
  Base64.atob s = None <->
  length (Base64.stripped s) mod 4 = 1 \/
  exists c, In c (Base64.stripped s) /\ Base64.sextet c = None.
Proof.
  unfold Base64.atob. fold (Base64.stripped s).
  destruct (Nat.eqb_spec (length (Base64.stripped s) mod 4) 1) as [H1|H1].
  - split; [by left|done].
  - split.
    + intros H. right. apply sextets_none.
      by destruct (Base64.sextets (Base64.stripped s)).
    + intros [H|(c & Hin & Hc)]; [done|].
      by rewrite (sextets_foreign _ c Hin Hc).
Qed.

(** C9, as the code has it. [decodeBase64] checks nothing itself: it fails
    exactly when [atob] fails, and [atob] is forgiving. A text is rejected
    when, whitespace and padding removed, it holds a code unit outside the
    base64 alphabet or its length is one more than a multiple of four.
    Every other text is decoded without an error, a text without its
    padding or cut short included: the result holds every byte that [atob]
    produced, three for every four units, the bits left over dropped. The
    encoding of a byte sequence is decoded to that sequence, in full. *)
Theorem decodeBase64_rejects_what_atob_rejects (base64 : jsstring) :
  ((length (Base64.stripped base64) mod 4 = 1 \/
    exists c, In c (Base64.stripped base64) /\ Base64.sextet c = None) ->
   exists e, decodeBase64 Base64.atob base64 = Throws e) /\
  (length (Base64.stripped base64) mod 4 <> 1 ->
   (forall c, In c (Base64.stripped base64) -> Base64.sextet c <> None) ->
   exists bytes,
     decodeBase64 Base64.atob base64 = Returns (Uint8Array_of bytes) /\
     Base64.atob base64 = Some (Byte.to_N <$> bytes) /\
     length bytes = length (Base64.stripped base64) * 3 / 4) /\
  (forall bytes,
     base64 = Base64.encode bytes ->
     decodeBase64 Base64.atob base64 = Returns (Uint8Array_of bytes)).
Proof.
  split; [|split].
  - intros Hbad. apply atob_rejects_iff in Hbad.
    unfold decodeBase64. rewrite Hbad. eauto.
  - intros Hlen Hall.
    destruct (Base64.atob base64) as [bin|] eqn:Hatob.
    2: { apply atob_rejects_iff in Hatob as [H|(c & Hin & Hc)]; [done|].
         by destruct (Hall c Hin). }
    pose proof Hatob as Hbin. unfold Base64.atob in Hbin.
    fold (Base64.stripped base64) in Hbin.
    destruct (Nat.eqb _ 1); [done|].
    destruct (Base64.sextets (Base64.stripped base64)) as [vs|] eqn:Hvs; [|done].
    injection Hbin as <-.
    destruct (sextets_small _ _ Hvs) as [Hsmall Hlenvs].
    exists (ToUint8 <$> Base64.octets vs).
    split; [by apply decodeBase64_returns|].
    split; [by rewrite (ToUint8_binary _ (octets_small vs Hsmall))|].
    by rewrite length_fmap, length_octets, Hlenvs.
  - intros bytes ->.
    rewrite (decodeBase64_returns _ _ _ (atob_encode bytes)). do 2 f_equal.
    rewrite <- list_fmap_compose. rewrite <- (list_fmap_id bytes) at 2.
    apply list_fmap_ext. intros _ b _. apply ToUint8_of_byte.
Qed.

(** ** The other handlers and a run from the specification *)

Lemma stopExperience_run (c : Component) :
  App.stopExperience c
  = (Returns tt,
     mkComponent IDLE (error c) None None (isApiKeyChecked c)
       (audioContextRef c) (audioSourceRef c) (nodes c),
     stops (audioSourceRef c) ++ [SetState IDLE; SetAnalysis None; SetImagePreview None]).
Proof.
  run_unfold. destruct c as [st er an im ck ctxr [node|] n]; reflexivity.
Qed.

(** The comparison with the sentinel is exact: another spelling is a
    landmark name like any other and is researched. *)
Example lower_case_unknown_is_a_name :
  exists r c' rest,
    App.processImage
      (Sample.platform (Returns (Sample.identified (Some (lit "unknown"))))
         (Returns (Sample.researched None)) (Returns (Sample.narrated None)))
      initial
    = (r, c',
       submission Sample.photo ++
       [GenerateContent (GeminiService.identify_request Sample.photo);
        SetState SEARCHING_HISTORY;
        GenerateContent (GeminiService.history_request (lit "unknown"))] ++ rest).
Proof. vm_compute. eauto. Qed.

(** The example of the specification: the three stages succeed. *)
Example eiffel_tower_is_ready :
  let c' := (App.processImage Sample.eiffel initial).1.2 in
  state c' = PLAYING /\
  error c' = None /\
  analysis c'
  = Some (mkAnalysis (lit "Eiffel Tower") (lit "Paragraph one.")
            [mkSource (Some (lit "Wiki"))
               (Some (lit "https://en.wikipedia.org/wiki/Eiffel_Tower"));
             mkSource None (Some (lit "https://www.toureiffel.paris"))]
            (Some (lit "AAD/fwCA"))).
Proof. vm_compute. done. Qed.

(** ** The statements at concrete inputs *)

(** Four samples on two channels. *)
Lemma decodeAudioData_pcm16_witness :
  exists buffer,
    decodeAudioData (Uint8Array_of (pcm16_le [0; 32767; -32768; -1]%Z)) webaudio 24000 2
    = Returns buffer /\
    length (channels buffer) = 2 /\
    forall c, c < 2 ->
      exists channelData,
        channels buffer !! c = Some channelData /\
        length channelData = length [0; 32767; -32768; -1]%Z / 2 /\
        forall i, i < length [0; 32767; -32768; -1]%Z / 2 ->
          exists s,
            [0; 32767; -32768; -1]%Z !! (i * 2 + c) = Some s /\
            channelData !! i = Some (F32 (inject_Z s / 32768)) /\
            (-1 <= inject_Z s / 32768 /\ inject_Z s / 32768 < 1)%Q.
Proof.
  apply (decodeAudioData_pcm16 (Uint8Array_of (pcm16_le [0; 32767; -32768; -1]%Z))
           webaudio 24000 [0; 32767; -32768; -1]%Z 2
           (mkAudioBuffer 24000 [[F32 0; F32 0]; [F32 0; F32 0]])).
  - reflexivity.
  - reflexivity.
  - reflexivity.
  - repeat constructor; unfold int16; lia.
  - simpl. lia.
  - lia.
  - exists 2. reflexivity.
  - reflexivity.
  - reflexivity.
  - repeat constructor.
Defined.

(** C1, as the specification has it, fails twice. An array that shows the
    last four bytes of a buffer of eight holds two samples, and what is
    decoded is the buffer: four frames, not two. And an empty payload,
    which has no frame, is not decoded into a buffer without frames: the
    audio context refuses it and the call throws. *)
Lemma decodeAudioData_reads_the_buffer :
  let data := subarray (Uint8Array_of (pcm16_le [1; 2; 3; 4]%Z)) 4 8 in
  elements data = pcm16_le [3; 4]%Z /\
  decodeAudioData data webaudio 24000 1
  = Returns (mkAudioBuffer 24000 [(fun s => F32 (inject_Z s / 32768)) <$> [1; 2; 3; 4]%Z]) /\
  elements (Uint8Array_of []) = pcm16_le [] /\
  decodeAudioData (Uint8Array_of []) webaudio 24000 1
  = Throws (new_Error "NotSupportedError").
Proof. repeat split. Qed.

Lemma decodeBase64_rejects_what_atob_rejects_witness :
  (exists e, decodeBase64 Base64.atob (lit "AA*/fwCA") = Throws e) /\
  (exists e, decodeBase64 Base64.atob (lit "QUJDR") = Throws e) /\
  (exists bytes,
     decodeBase64 Base64.atob (lit "QUJD RE") = Returns (Uint8Array_of bytes) /\
     Base64.atob (lit "QUJD RE") = Some (Byte.to_N <$> bytes) /\
     length bytes = length (Base64.stripped (lit "QUJD RE")) * 3 / 4) /\
  decodeBase64 Base64.atob (Base64.encode [x00; x00; xff; x7f; x00; x80; x41])
  = Returns (Uint8Array_of [x00; x00; xff; x7f; x00; x80; x41]).
Proof.
  split; [|split; [|split]].
  - apply (proj1 (decodeBase64_rejects_what_atob_rejects (lit "AA*/fwCA"))).
    right. exists 42%N. split; [|reflexivity]. vm_compute. tauto.
  - apply (proj1 (decodeBase64_rejects_what_atob_rejects (lit "QUJDR"))).
    left. reflexivity.
  - apply (proj1 (proj2 (decodeBase64_rejects_what_atob_rejects (lit "QUJD RE")))).
    + vm_compute. discriminate.
    + intros c Hc. vm_compute in Hc.
      repeat (destruct Hc as [<-|Hc]; [discriminate|]). done.
  - apply (proj2 (proj2 (decodeBase64_rejects_what_atob_rejects
                           (Base64.encode [x00; x00; xff; x7f; x00; x80; x41])))).
    reflexivity.
Defined.

(** C9, as the specification has it, fails: a text cut short in the middle
    of a group (it is the encoding of no byte sequence, and the first six
    units of the encoding of [ABCDE]) is not rejected; the four bytes that
    its units cover are returned and the bits left over are dropped. *)
Lemma truncated_base64_is_decoded :
  (forall bytes, lit "QUJDRE" <> Base64.encode bytes) /\
  Base64.encode [x41; x42; x43; x44; x45] = lit "QUJDRE" ++ lit "U=" /\
  decodeBase64 Base64.atob (lit "QUJDRE") = Returns (Uint8Array_of [x41; x42; x43; x44]).
Proof.
  split; [|split; reflexivity].
  intros bytes Heq. pose proof (length_encode bytes) as Hlen.
  rewrite <- Heq in Hlen. discriminate.
Qed.

Lemma unknown_landmark_fails_witness :
  exists c' trace,
    App.processImage Sample.unknown initial = (Returns tt, c', trace) /\
    trace = (submission Sample.photo ++
             [GenerateContent (GeminiService.identify_request Sample.photo);
              SetError (Some (lit "Could not identify a landmark in this photo."));
              SetState ERROR]) /\
    state c' = ERROR /\
    error c' = Some (lit "Could not identify a landmark in this photo.") /\
    analysis c' = None /\
    (forall r, In (GenerateContent r) trace ->
               r = GeminiService.identify_request Sample.photo).
Proof.
  apply (unknown_landmark_fails Sample.unknown initial Sample.photo).
  - left. reflexivity.
  - reflexivity.
  - intros c. reflexivity.
Defined.

Lemma missing_audio_fails_witness :
  throws (GeminiService.generateNarration Sample.silent (lit "History unavailable."))
    (new_Error "Audio generation failed") /\
  exists c' trace,
    App.processImage Sample.silent initial = (Returns tt, c', trace) /\
    state c' = ERROR /\
    error c' = Some (lit "Audio generation failed") /\
    analysis c' = None /\
    ~ In (SetState PLAYING) trace /\
    published trace = [None].
Proof.
  apply (missing_audio_fails Sample.silent initial Sample.photo
           (lit "Eiffel Tower") (lit "History unavailable.")
           [mkSource (GenAI.title Sample.wiki) (GenAI.uri Sample.wiki);
            mkSource (GenAI.title Sample.untitled) (GenAI.uri Sample.untitled)]
           (Sample.narrated None)).
  - left. reflexivity.
  - reflexivity.
  - intros c. reflexivity.
  - discriminate.
  - intros c. reflexivity.
  - reflexivity.
  - reflexivity.
Defined.

Lemma missing_history_defaults_witness :
  exists sources,
    returns (GeminiService.getLandmarkHistory Sample.terse (lit "Eiffel Tower"))
      (lit "History unavailable.", sources) /\
    exists r c' rest,
      App.processImage Sample.terse initial
      = (r, c',
         submission Sample.photo ++
         [GenerateContent (GeminiService.identify_request Sample.photo);
          SetState SEARCHING_HISTORY;
          GenerateContent (GeminiService.history_request (lit "Eiffel Tower"));
          SetState GENERATING_AUDIO;
          GenerateContent (GeminiService.narration_request (lit "History unavailable."))]
         ++ rest).
Proof.
  apply (missing_history_defaults Sample.terse initial Sample.photo
           (lit "Eiffel Tower") (Sample.researched (Some []))).
  - left. reflexivity.
  - reflexivity.
  - intros c. reflexivity.
  - discriminate.
  - reflexivity.
  - right. reflexivity.
Defined.

Lemma sources_are_the_web_references_witness :
  GeminiService.extract_sources (Sample.researched (Some (lit "Paragraph one.")))
  = Returns ((fun w => mkSource (GenAI.title w) (GenAI.uri w))
               <$> web_references Sample.chunks) /\
  returns (GeminiService.getLandmarkHistory Sample.eiffel (lit "Eiffel Tower"))
    (or_else (GenAI.text (Sample.researched (Some (lit "Paragraph one."))))
       (lit "History unavailable."),
     (fun w => mkSource (GenAI.title w) (GenAI.uri w)) <$> web_references Sample.chunks).
Proof.
  apply (sources_are_the_web_references Sample.eiffel (lit "Eiffel Tower")
           (Sample.researched (Some (lit "Paragraph one."))) Sample.chunks).
  - reflexivity.
  - reflexivity.
Defined.

Lemma source_title_is_upstream_title_witness :
  exists srcs src,
    GeminiService.extract_sources (Sample.researched None) = Returns srcs /\
    srcs !! 1 = Some src /\
    title src = GenAI.title Sample.untitled /\
    uri src = GenAI.uri Sample.untitled /\
    (GenAI.title Sample.untitled = Some [] -> title src = Some []) /\
    (GenAI.title Sample.untitled = None -> title src = None).
Proof.
  apply (source_title_is_upstream_title (Sample.researched None) Sample.chunks 1
           Sample.untitled).
  - reflexivity.
  - reflexivity.
Defined.

(** C6, as the specification has it, fails: the third grounding chunk of
    the sample has a web reference without a title, and the source built
    for it has no title either, not an empty one. *)
Lemma missing_title_is_not_defaulted :
  GenAI.title Sample.untitled = None /\
  exists src,
    GeminiService.extract_sources (Sample.researched None)
    = Returns [mkSource (Some (lit "Wiki"))
                 (Some (lit "https://en.wikipedia.org/wiki/Eiffel_Tower"));
               src] /\
    uri src = GenAI.uri Sample.untitled /\
    title src = None /\
    title src <> Some [].
Proof.
  split; [reflexivity|].
  eexists. split; [reflexivity|]. simpl. by repeat split.
Qed.

Lemma failed_stage_handling_witness :
  exists c' trace,
    App.processImage Sample.expired initial = (Returns tt, c', trace) /\
    state c' = ERROR /\
    (App.credential_expired (new_Error "404 Requested entity was not found.") = true ->
       error c' = Some (lit "API key session expired. Please select your key again.") /\
       In OpenSelectKey trace /\
       isApiKeyChecked c' = true) /\
    (App.credential_expired (new_Error "404 Requested entity was not found.") = false ->
       error c' = Some (or_else (message (new_Error "404 Requested entity was not found."))
                          (lit "An unexpected error occurred.")) /\
       ~ In OpenSelectKey trace /\
       isApiKeyChecked c' = isApiKeyChecked initial).
Proof.
  apply (failed_stage_handling Sample.expired initial Sample.photo
           (new_Error "404 Requested entity was not found.")).
  - left. reflexivity.
  - reflexivity.
  - intros c. reflexivity.
Defined.

Lemma analysis_published_atomically_witness :
  exists r c' trace,
    App.processImage Sample.eiffel initial = (r, c', trace) /\
    r = Returns tt /\
    published trace
    = [None;
       Some (mkAnalysis (lit "Eiffel Tower") (lit "Paragraph one.")
               [mkSource (GenAI.title Sample.wiki) (GenAI.uri Sample.wiki);
                mkSource (GenAI.title Sample.untitled) (GenAI.uri Sample.untitled)]
               (Some (lit "AAD/fwCA")))] /\
    analysis c'
    = Some (mkAnalysis (lit "Eiffel Tower") (lit "Paragraph one.")
              [mkSource (GenAI.title Sample.wiki) (GenAI.uri Sample.wiki);
               mkSource (GenAI.title Sample.untitled) (GenAI.uri Sample.untitled)]
              (Some (lit "AAD/fwCA"))) /\
    state c' = PLAYING.
Proof.
  destruct (analysis_published_atomically Sample.eiffel initial (or_introl eq_refl))
    as (r & c' & trace & Hrun & _ & Hok & _).
  exists r, c', trace. split; [exact Hrun|].
  apply (Hok Sample.photo).
  - reflexivity.
  - intros c. reflexivity.
  - discriminate.
  - intros c. reflexivity.
  - intros c. reflexivity.
Defined.

(** * Further properties of the code *)

(** ** decodeAudioData on arbitrary bytes *)

Lemma int16_of_bytes_range (lo hi : byte) : int16 (int16_of_bytes lo hi).
Proof.
  unfold int16, int16_of_bytes.
  pose proof (Byte.to_N_bounded lo). pose proof (Byte.to_N_bounded hi).
  destruct (Z.ltb_spec (Z.of_N (Byte.to_N lo) + 256 * Z.of_N (Byte.to_N hi)) 32768); lia.
Qed.

Lemma pairs_ind {A} (Q : list A -> Prop) :
  Q [] -> (forall x, Q [x]) -> (forall x y l, Q l -> Q (x :: y :: l)) ->
  forall l, Q l.
Proof.
  intros H0 H1 H2 l.
  assert (H : Q l /\ forall x, Q (x :: l)); [|tauto].
  induction l as [|y l [IH1 IH2]]; [auto|].
  split; [apply IH2|]. intros x. by apply H2.
Qed.

Lemma int16_view_range (buf : list byte) : Forall int16 (int16_view buf).
Proof.
  induction buf as [|x|lo hi rest IH] using pairs_ind; simpl; try constructor; try done.
  apply int16_of_bytes_range.
Qed.

Lemma length_int16_view (buf : list byte) : length (int16_view buf) = length buf / 2.
Proof.
  induction buf as [|x|lo hi rest IH] using pairs_ind; try reflexivity.
  simpl int16_view. simpl length. rewrite IH.
  change (S (S (length rest))) with (1 * 2 + length rest).
  rewrite Nat.div_add_l by lia. lia.
Qed.

(** Writes past the end of a typed array are dropped: a loop that counts
    beyond the length of the array fills the array and nothing else. *)
Lemma foldl_insert_beyond {A} (f : nat -> A) (n : nat) (l : list A) :
  length l <= n ->
  foldl (fun l i => <[i := f i]> l) l (seq 0 n) = f <$> seq 0 (length l).
Proof.
  intros Hle.
  replace n with (length l + (n - length l)) by lia.
  rewrite seq_app, foldl_app, (foldl_insert_all f (length l) l eq_refl).
  assert (Hlen : length (f <$> seq 0 (length l)) <= 0 + length l)
    by (rewrite length_fmap, length_seq; lia).
  revert Hlen. generalize (f <$> seq 0 (length l)) as l', (0 + length l) as k,
    (n - length l) as m.
  intros l' k m. revert l' k. induction m as [|m IH]; intros l' k Hlen; [done|].
  simpl. rewrite list_insert_ge by done. apply IH. lia.
Qed.

(** The trip count of the inner loop: the frame count, rounded up. *)
Lemma trip_count_ceiling (n c : nat) :
  0 < c ->
  exists frames, trip_count (JS.div n c) = Some frames /\ n / c <= frames.
Proof.
  intros Hc. destruct c as [|c]; [lia|].
  unfold JS.div, trip_count, Qceiling, Qfloor, Qopp, Qnum, Qden.
  eexists. split; [reflexivity|].
  replace (Z.pos (Pos.of_nat (S c))) with (Z.of_nat (S c))
    by (rewrite <- positive_nat_Z, Nat2Pos.id; done).
  apply Nat2Z.inj_le. rewrite Nat2Z.inj_div, Z2Nat.id.
  - pose proof (Z.div_mod (Z.of_nat n) (Z.of_nat (S c)) ltac:(lia)).
    pose proof (Z.mod_pos_bound (Z.of_nat n) (Z.of_nat (S c)) ltac:(lia)).
    pose proof (Z.div_mod (- Z.of_nat n) (Z.of_nat (S c)) ltac:(lia)).
    pose proof (Z.mod_pos_bound (- Z.of_nat n) (Z.of_nat (S c)) ltac:(lia)).
    nia.
  - pose proof (Z.div_mod (- Z.of_nat n) (Z.of_nat (S c)) ltac:(lia)).
    pose proof (Z.mod_pos_bound (- Z.of_nat n) (Z.of_nat (S c)) ltac:(lia)).
    nia.
Qed.

Lemma number_to_length_div (n c : nat) :
  0 < c -> number_to_length (JS.div n c) = n / c.
Proof.
  intros Hc. destruct c as [|c]; [lia|].
  unfold JS.div, number_to_length, Qfloor.
  replace (Z.pos (Pos.of_nat (S c))) with (Z.of_nat (S c))
    by (rewrite <- positive_nat_Z, Nat2Pos.id; done).
  by rewrite <- Nat2Z.inj_div, Nat2Z.id.
Qed.

Lemma webaudio_createBuffer_some (c : nat) (f : number) (rate : Z) :
  0 < c -> 0 < number_to_length f ->
  webaudio_createBuffer c f rate
  = Some (mkAudioBuffer rate (replicate c (replicate (number_to_length f) (F32 0)))).
Proof.
  intros Hc Hf. unfold webaudio_createBuffer.
  destruct c; [lia|]. destruct (number_to_length f); [lia|]. done.
Qed.

Lemma foldl_decode_channel_beyond (dataInt16 : list Z) (numChannels frames trips : nat)
    (frameCount : number) (rate : Z) (m : nat) :
  trip_count frameCount = Some trips ->
  frames <= trips ->
  forall (k : nat) (chs : list (list float32)),
    length chs = k + m ->
    Forall (fun ch => length ch = frames) chs ->
    foldl (decode_channel dataInt16 numChannels frameCount)
          (Returns (mkAudioBuffer rate chs)) (seq k m)
    = Returns (mkAudioBuffer rate
        (take k chs ++
         ((fun channel =>
             (fun i => over_32768 (dataInt16 !! (i * numChannels + channel)))
               <$> seq 0 frames) <$> seq k m))).
Proof.
  intros Htrip Hle. induction m as [|m IH]; intros k chs Hlen Hall; simpl.
  - rewrite app_nil_r, take_ge; [done | lia].
  - destruct (lookup_lt_is_Some_2 chs k ltac:(lia)) as [ch Hch].
    rewrite Hch, Htrip. simpl.
    assert (Hchlen : length ch = frames).
    { rewrite Forall_lookup in Hall. by eapply Hall. }
    unfold fill_channel.
    rewrite (foldl_insert_beyond
               (fun i => over_32768 (dataInt16 !! (i * numChannels + k))))
      by lia.
    rewrite Hchlen, IH.
    + rewrite (take_S_r _ k _ (list_lookup_insert_eq chs k _ ltac:(lia))).
      rewrite take_insert_ge by lia.
      by rewrite <- app_assoc.
    + rewrite length_insert. lia.
    + apply Forall_insert; [done|].
      by rewrite length_fmap, length_seq.
Qed.

(** X1. What is decoded is [data.buffer], the whole buffer behind the
    array, whatever part of it the array shows. Any even number of bytes is
    decoded, whether or not the sample count [N] is a multiple of the
    channel count [C]: when [createBuffer] hands out [C] channels of
    [N / C] frames (the frame count rounded down), frame [i] of channel [c]
    is the 16-bit sample [i * C + c] of the buffer over [32768], the
    [N mod C] samples left over at the end are dropped, and no cell is left
    [NaN]. *)
Theorem decodeAudioData_truncates (data : Uint8Array) (ctx : AudioContext) (rate : Z)
    (C : nat) (blank : AudioBuffer) :
  0 < C ->
  Nat.even (length (buffer data)) = true ->
  createBuffer ctx C (JS.div (length (buffer data) / 2) C) rate = Some blank ->
  length (channels blank) = C ->
  Forall (fun ch => length ch = length (buffer data) / 2 / C) (channels blank) ->
  exists decoded,
    decodeAudioData data ctx rate C = Returns decoded /\
    sampleRate decoded = sampleRate blank /\
    length (channels decoded) = C /\
    forall c, c < C ->
      exists channelData,
        channels decoded !! c = Some channelData /\
        length channelData = length (buffer data) / 2 / C /\
        forall i, i < length (buffer data) / 2 / C ->
          exists s,
            int16_view (buffer data) !! (i * C + c) = Some s /\
            int16 s /\
            channelData !! i = Some (F32 (inject_Z s / 32768)).
Proof.
  intros HC Heven Hblank Hchans Hframes.
  set (N := length (buffer data) / 2) in *.
  assert (HN : length (int16_view (buffer data)) = N) by apply length_int16_view.
  destruct (trip_count_ceiling N C HC) as (trips & Htrip & Hle).
  unfold decodeAudioData, new_Int16Array. rewrite Heven. cbv zeta.
  rewrite HN, Hblank. destruct blank as [rate0 chs]. simpl in Hchans, Hframes.
  rewrite (foldl_decode_channel_beyond _ C (N / C) trips _ rate0 C Htrip Hle 0)
    by done.
  rewrite take_0. eexists. split; [reflexivity|]. split; [done|].
  cbn [channels app]. split; [by rewrite length_fmap, length_seq|].
  intros c Hc. eexists. split.
  { rewrite list_lookup_fmap, lookup_seq_lt by done. done. }
  split; [by rewrite length_fmap, length_seq|].
  intros i Hi.
  assert (Hidx : i * C + c < length (int16_view (buffer data))).
  { rewrite HN. pose proof (Nat.div_mod N C ltac:(lia)) as Hdm. nia. }
  destruct (lookup_lt_is_Some_2 _ _ Hidx) as [s Hs].
  exists s. split; [done|]. split.
  - pose proof (int16_view_range (buffer data)) as Hr. rewrite Forall_lookup in Hr.
    by eapply Hr.
  - rewrite list_lookup_fmap, lookup_seq_lt by done. simpl. by rewrite Hs.
Qed.

(** X2. With the context of the Web Audio standard, the call is refused
    (it throws) when the number of bytes of [data.buffer] is odd, when
    there is no channel, and when the buffer holds fewer samples than there
    are channels, an empty buffer included. *)
Theorem decodeAudioData_refuses (data : Uint8Array) (rate : Z) (C : nat) :
  Nat.even (length (buffer data)) = false \/ C = 0 \/ length (buffer data) / 2 < C ->
  exists e, decodeAudioData data webaudio rate C = Throws e.
Proof.
  intros Hbad. unfold decodeAudioData, new_Int16Array.
  destruct (Nat.even (length (buffer data))) eqn:Heven; [|eauto].
  destruct Hbad as [|[-> |Hshort]]; [done|eauto|]. cbv zeta.
  rewrite length_int16_view. simpl createBuffer. unfold webaudio_createBuffer.
  rewrite number_to_length_div by lia.
  rewrite Nat.div_small by done.
  destruct C; eauto.
Qed.

Lemma foldl_decode_channel_ends (dataInt16 : list Z) (numChannels : nat)
    (frameCount : number) (l : list nat) :
  trip_count frameCount <> None ->
  forall acc, acc <> Diverges ->
    foldl (decode_channel dataInt16 numChannels frameCount) acc l <> Diverges.
Proof.
  intros Htrip. induction l as [|channel l IH]; intros acc Hacc; [done|].
  simpl. apply IH. destruct acc as [b|e|]; simpl; try done.
  destruct (channels b !! channel); [|done].
  by destruct (trip_count frameCount).
Qed.

(** X3. [decodeAudioData] always comes to an end, whatever the bytes, the
    channel count and the context: the frame count is infinite only when
    there is no channel, and then no loop runs. *)
Theorem decodeAudioData_ends (data : Uint8Array) (ctx : AudioContext) (rate : Z)
    (C : nat) :
  decodeAudioData data ctx rate C <> Diverges.
Proof.
  unfold decodeAudioData, new_Int16Array.
  destruct (Nat.even (length (buffer data))); [|done]. cbv zeta.
  destruct (createBuffer ctx C _ rate) as [blank|]; [|done].
  destruct C as [|C']; [done|].
  apply foldl_decode_channel_ends; [|done].
  destruct (trip_count_ceiling (length (int16_view (buffer data))) (S C') ltac:(lia))
    as (trips & -> & _). done.
Qed.

(** ** The three calls, case by case *)

Lemma trimStart_blank (s : jsstring) :
  Forall (fun ch => isWhiteSpace ch = true) s -> trimStart s = [].
Proof.
  induction 1 as [|ch s Hch _ IH]; [done|]. simpl. by rewrite Hch.
Qed.

Lemma trimStart_head (s : jsstring) (ch : N) :
  head (trimStart s) = Some ch -> isWhiteSpace ch = false.
Proof.
  induction s as [|x s IH]; [done|]. simpl.
  destruct (isWhiteSpace x) eqn:Hx; [done|]. simpl. by intros [= <-].
Qed.

Lemma trimStart_suffix (s : jsstring) : exists pre, s = pre ++ trimStart s.
Proof.
  induction s as [|x s [pre IH]]; [by exists []|]. simpl.
  destruct (isWhiteSpace x).
  - exists (x :: pre). simpl. by rewrite <- IH.
  - by exists [].
Qed.

Lemma head_rev {A} (l : list A) : head (rev l) = last l.
Proof.
  induction l as [|x l IH] using rev_ind; [done|].
  by rewrite rev_app_distr, last_snoc.
Qed.

Lemma last_rev {A} (l : list A) : last (rev l) = head l.
Proof. by rewrite <- head_rev, rev_involutive. Qed.

Lemma last_app_nonempty {A} (l1 l2 : list A) : l2 <> [] -> last (l1 ++ l2) = last l2.
Proof.
  intros Hne. destruct l2 as [|x l2] using rev_ind; [done|].
  by rewrite app_assoc, !last_snoc.
Qed.

(** What [trim] returns neither starts nor ends with whitespace. *)
Lemma trim_ends (s : jsstring) (ch : N) :
  head (trim s) = Some ch \/ last (trim s) = Some ch -> isWhiteSpace ch = false.
Proof.
  unfold trim. rewrite head_rev, last_rev. intros [Hlast|Hhead].
  - destruct (trimStart_suffix (rev (trimStart s))) as [pre Hpre].
    destruct (trimStart (rev (trimStart s))) as [|x u] eqn:Hu; [done|].
    rewrite <- (last_app_nonempty pre (x :: u)), <- Hpre, last_rev in Hlast by done.
    by apply trimStart_head in Hlast.
  - by apply trimStart_head in Hhead.
Qed.

Lemma trim_blank (s : jsstring) :
  Forall (fun ch => isWhiteSpace ch = true) s -> trim s = [].
Proof.
  intros Hs. unfold trim. by rewrite (trimStart_blank s Hs).
Qed.

(** X4. A name returned by [identifyLandmark] is never empty and neither
    starts nor ends with whitespace: it is the trimmed text of the
    response, or ["Unknown"] when nothing is left of it. *)
Theorem identified_name_is_trimmed (P : Platform) (base64 : jsstring)
    (response : GenAI.GenerateContentResponse) :
  generateContent P (GeminiService.identify_request base64) = Returns response ->
  exists name,
    returns (GeminiService.identifyLandmark P base64) name /\
    name <> [] /\
    (forall ch, head name = Some ch \/ last name = Some ch -> isWhiteSpace ch = false) /\
    (forall t, GenAI.text response = Some t -> trim t <> [] -> name = trim t).
Proof.
  intros Hcall. eexists. split.
  { intros c. by rewrite identifyLandmark_run, Hcall. }
  split; [by apply or_else_nonempty|]. split.
  - intros ch. destruct (GenAI.text response) as [t|]; simpl.
    + destruct (trim t) as [|x u] eqn:Ht.
      * vm_compute. intros [[= <-]|[= <-]]; reflexivity.
      * rewrite <- Ht. apply trim_ends.
    + vm_compute. intros [[= <-]|[= <-]]; reflexivity.
  - intros t -> Ht. simpl. by destruct (trim t).
Qed.

(** X5. A response without text, or with nothing but whitespace in it, is
    taken for the sentinel: [identifyLandmark] returns ["Unknown"] and the
    run ends in [ERROR] as for an unrecognised photo, after the one
    request. *)
Theorem blank_identification_fails (P : Platform) (c : Component) (base64 : jsstring)
    (response : GenAI.GenerateContentResponse) :
  key_ready P c ->
  readAsDataURL P = Some base64 ->
  generateContent P (GeminiService.identify_request base64) = Returns response ->
  (GenAI.text response = None \/
   exists t, GenAI.text response = Some t /\ Forall (fun ch => isWhiteSpace ch = true) t) ->
  returns (GeminiService.identifyLandmark P base64) (lit "Unknown") /\
  exists c' trace,
    App.processImage P c = (Returns tt, c', trace) /\
    state c' = ERROR /\
    error c' = Some (lit "Could not identify a landmark in this photo.") /\
    requests trace = [GeminiService.identify_request base64].
Proof.
  intros Hkey Hread Hcall Hblank.
  assert (Hid : returns (GeminiService.identifyLandmark P base64) (lit "Unknown")).
  { intros c0. rewrite identifyLandmark_run, Hcall.
    destruct Hblank as [-> | (t & -> & Ht)]; [done|].
    simpl. by rewrite (trim_blank t Ht). }
  split; [done|].
  rewrite (processImage_run P c base64 Hkey Hread), stages_run.
  rewrite (identifyLandmark_returns _ _ _ Hid).
  replace (str_eqb (lit "Unknown") (lit "Unknown")) with true by reflexivity.
  rewrite on_error_run, not_identified_is_generic.
  eexists _, _. split; [reflexivity|]. done.
Qed.

Lemma upto_no_separator (sep : N) (s : jsstring) : ~ In sep s -> upto sep s = s.
Proof.
  induction s as [|x s IH]; [done|]. intros Hin. simpl.
  destruct (N.eqb_spec x sep) as [->|_]; [by destruct Hin; left|].
  rewrite IH; [done|]. intros ?. apply Hin. by right.
Qed.

Lemma split_1_header (sep : N) (header rest : jsstring) :
  ~ In sep header -> split_1 sep (header ++ sep :: rest) = Some (upto sep rest).
Proof.
  induction header as [|x header IH]; intros Hin; simpl.
  - by rewrite N.eqb_refl.
  - destruct (N.eqb_spec x sep) as [->|_]; [by destruct Hin; left|].
    apply IH. intros ?. apply Hin. by right.
Qed.

Lemma split_1_no_separator (sep : N) (s : jsstring) : ~ In sep s -> split_1 sep s = None.
Proof.
  induction s as [|x s IH]; [done|]. intros Hin. simpl.
  destruct (N.eqb_spec x sep) as [->|_]; [by destruct Hin; left|].
  apply IH. intros ?. apply Hin. by right.
Qed.

(** X6. The image data that [identifyLandmark] sends is what follows the
    first comma of the data URL: the whole payload when the payload holds
    no comma, and nothing ([undefined]) when the text holds no comma at
    all. The MIME type it sends is [image/jpeg] whatever the header of the
    data URL says. *)
Theorem identify_sends_the_payload (header payload : jsstring) :
  ~ In 44%N header ->
  ~ In 44%N payload ->
  GenAI.contents (GeminiService.identify_request (header ++ 44%N :: payload))
  = GenAI.InlineDataAndText (Some payload) (lit "image/jpeg") GeminiService.identify_prompt /\
  GenAI.contents (GeminiService.identify_request header)
  = GenAI.InlineDataAndText None (lit "image/jpeg") GeminiService.identify_prompt.
Proof.
  intros Hheader Hpayload. unfold GeminiService.identify_request. simpl.
  by rewrite split_1_header, upto_no_separator, split_1_no_separator.
Qed.

(** X7. [getLandmarkHistory] returns for every response of the service:
    nothing in a response makes it throw. The history is the text of the
    response as it is (not trimmed), never empty, and the sources are
    empty when the response has no grounding chunks. *)
Theorem getLandmarkHistory_always_returns (P : Platform) (landmark : jsstring)
    (response : GenAI.GenerateContentResponse) :
  generateContent P (GeminiService.history_request landmark) = Returns response ->
  exists history sources,
    returns (GeminiService.getLandmarkHistory P landmark) (history, sources) /\
    history <> [] /\
    (forall x t, GenAI.text response = Some (x :: t) -> history = x :: t) /\
    (GeminiService.groundingChunks_of response = None -> sources = []) /\
    (forall chunks, GeminiService.groundingChunks_of response = Some chunks ->
                    length sources <= length chunks).
Proof.
  intros Hcall. eexists _, _. split.
  { intros c. by rewrite getLandmarkHistory_run, Hcall, extract_sources_returns. }
  split; [by apply or_else_nonempty|].
  split; [by intros x t ->|].
  split; [by intros ->|].
  intros chunks ->. simpl. rewrite length_fmap. unfold web_references.
  induction chunks as [|chunk chunks IH]; [done|].
  change (omap GenAI.web (chunk :: chunks))
    with (match GenAI.web chunk with
          | Some w => w :: omap GenAI.web chunks
          | None => omap GenAI.web chunks
          end).
  destruct (GenAI.web chunk); simpl; lia.
Qed.

(** X8. [generateNarration] looks at the first part of the first candidate
    only: it returns the inline data of that part when there is some, and
    throws "Audio generation failed" when that part has none or an empty
    one, whatever the other parts and the other candidates hold. *)
Theorem narration_reads_the_first_part (P : Platform) (text : jsstring)
    (response : GenAI.GenerateContentResponse)
    (cand : GenAI.Candidate) (cands : list GenAI.Candidate)
    (ct : GenAI.Content) (part : GenAI.Part) (others : list GenAI.Part) :
  generateContent P (GeminiService.narration_request text) = Returns response ->
  GenAI.candidates response = Some (cand :: cands) ->
  GenAI.content cand = Some ct ->
  GenAI.parts ct = Some (part :: others) ->
  (forall x s, GenAI.inlineData part ≫= GenAI.data = Some (x :: s) ->
     returns (GeminiService.generateNarration P text) (x :: s)) /\
  (GenAI.inlineData part ≫= GenAI.data = None \/
   GenAI.inlineData part ≫= GenAI.data = Some [] ->
     throws (GeminiService.generateNarration P text) (new_Error "Audio generation failed")).
Proof.
  intros Hcall Hcands Hct Hparts.
  assert (Haudio : GeminiService.audio_of response = GenAI.inlineData part ≫= GenAI.data).
  { unfold GeminiService.audio_of. rewrite Hcands. simpl. rewrite Hct. simpl.
    rewrite Hparts. simpl. by destruct (GenAI.inlineData part). }
  split.
  - intros x s Hdata c. by rewrite generateNarration_run, Hcall, Haudio, Hdata.
  - intros Hnone c. rewrite generateNarration_run, Hcall, Haudio.
    by destruct Hnone as [-> | ->].
Qed.

(** ** The entry point, case by case *)

Lemma requests_app (t1 t2 : list Event) : requests (t1 ++ t2) = requests t1 ++ requests t2.
Proof. apply omap_app. Qed.

Lemma requests_audio (t : list Event) : Forall audio t -> requests t = [].
Proof.
  unfold requests. induction 1 as [|e t He _ IH]; [done|].
  destruct e; try done; simpl; by rewrite IH.
Qed.

(** X9. Without a key and without an earlier key selection, a call of
    [processImage] opens the key selection and drops the image: no
    request is sent and stage, error, analysis and preview stay as they
    were. The check is passed from then on, so that the next call runs
    the pipeline whether or not a key has been selected. *)
Theorem key_check_prompts_once (P P' : Platform) (c : Component) :
  hasSelectedApiKey P = false ->
  isApiKeyChecked c = false ->
  exists c',
    App.processImage P c
    = (Returns tt, c', [HasSelectedApiKey; OpenSelectKey; SetIsApiKeyChecked true]) /\
    state c' = state c /\ error c' = error c /\
    analysis c' = analysis c /\ imagePreview c' = imagePreview c /\
    exists r c'' rest,
      App.processImage P' c'
      = (r, c'',
         [HasSelectedApiKey; SetState LOADING_IMAGE; SetError None; SetAnalysis None]
         ++ rest).
Proof.
  intros Hkey Hchecked.
  rewrite (processImage_without_key P c Hkey Hchecked).
  eexists. split; [reflexivity|]. simpl. repeat (split; [done|]).
  match goal with |- context [App.processImage P' ?k] => set (c' := k) end.
  assert (Hready : key_ready P' c') by (by right).
  destruct (readAsDataURL P') as [base64|] eqn:Hread.
  - rewrite (processImage_run P' c' base64 Hready Hread).
    destruct (App.stages P' base64 (loaded c' base64)) as [[[[]|err|] c1] t1].
    + eexists _, _, _. reflexivity.
    + destruct (App.on_error err c1) as [[r c2] t2]. eexists _, _, _. reflexivity.
    + eexists _, _, _. reflexivity.
  - rewrite (processImage_no_load P' c' Hready Hread).
    eexists _, _, []. reflexivity.
Qed.

(** The requests of the [try] block: the three of the pipeline, in order,
    up to the stage that stopped it. *)
Lemma stages_requests (P : Platform) (base64 : jsstring) (c : Component) :
  exists r c1 t1,
    App.stages P base64 c = (r, c1, t1) /\
    (requests t1 = [GeminiService.identify_request base64] \/
     exists name,
       returns (GeminiService.identifyLandmark P base64) name /\
       (requests t1 = [GeminiService.identify_request base64;
                       GeminiService.history_request name] \/
        exists history sources,
          returns (GeminiService.getLandmarkHistory P name) (history, sources) /\
          requests t1 = [GeminiService.identify_request base64;
                         GeminiService.history_request name;
                         GeminiService.narration_request history])).
Proof.
  pose proof (stages_run P base64 c) as Hrun.
  rewrite identifyLandmark_run in Hrun.
  destruct (generateContent P (GeminiService.identify_request base64))
    as [r1|e|] eqn:H1;
    [|eexists _, _, _; split; [exact Hrun|]; by left ..].
  set (name := or_else (trim <$> GenAI.text r1) (lit "Unknown")) in *.
  assert (Hid : returns (GeminiService.identifyLandmark P base64) name)
    by (intros c0; by rewrite identifyLandmark_run, H1).
  destruct (str_eqb name (lit "Unknown")) eqn:Hname.
  { eexists _, _, _. split; [exact Hrun|]. by left. }
  unfold setState at 1, mbind, Run_bind, emit, modify in Hrun.
  cbv beta iota zeta in Hrun.
  rewrite getLandmarkHistory_run in Hrun.
  destruct (generateContent P (GeminiService.history_request name))
    as [r2|e|] eqn:H2;
    [|eexists _, _, _; split; [exact Hrun|]; right; exists name; split; [done|]; by left ..].
  rewrite extract_sources_returns in Hrun.
  set (sources := (fun w => mkSource (GenAI.title w) (GenAI.uri w)) <$> _) in *.
  set (history := or_else (GenAI.text r2) (lit "History unavailable.")) in *.
  assert (Hhist : returns (GeminiService.getLandmarkHistory P name) (history, sources)).
  { intros c0. by rewrite getLandmarkHistory_run, H2, extract_sources_returns. }
  unfold setState at 1, mbind, Run_bind, emit, modify in Hrun.
  cbv beta iota zeta in Hrun.
  cbn [fst snd] in Hrun. rewrite generateNarration_run in Hrun.
  assert (Hthree : forall r c1 t1,
            App.stages P base64 c = (r, c1, t1) ->
            requests t1 = [GeminiService.identify_request base64;
                           GeminiService.history_request name;
                           GeminiService.narration_request history] ->
            exists r c1 t1,
              App.stages P base64 c = (r, c1, t1) /\
              (requests t1 = [GeminiService.identify_request base64] \/
               exists name,
                 returns (GeminiService.identifyLandmark P base64) name /\
                 (requests t1 = [GeminiService.identify_request base64;
                                 GeminiService.history_request name] \/
                  exists history sources,
                    returns (GeminiService.getLandmarkHistory P name) (history, sources) /\
                    requests t1 = [GeminiService.identify_request base64;
                                   GeminiService.history_request name;
                                   GeminiService.narration_request history]))).
  { intros r c1 t1 Hr Ht. eexists _, _, _. split; [exact Hr|].
    right. exists name. split; [done|]. right. by exists history, sources. }
  destruct (generateContent P (GeminiService.narration_request history))
    as [r3|e|] eqn:H3; [|by eapply Hthree ..].
  destruct (GeminiService.audio_of r3) as [[|x s]|] eqn:Haudio;
    [by eapply Hthree| |by eapply Hthree].
  unfold setAnalysis, setState, mbind, Run_bind, emit, modify in Hrun.
  cbv beta iota zeta in Hrun.
  match type of Hrun with
  | context [not_awaited (App.playAudio P ?a) ?k] =>
      destruct (playAudio_run P a k)
        as (c8 & mid & last & Hplay & _ & _ & _ & _ & _ & Hmid & Hlast)
  end.
  rewrite Hplay in Hrun.
  match type of Hrun with
  | context [stops ?ref ++ mid ++ [last]] =>
      assert (Htail : requests (stops ref ++ mid ++ [last]) = []);
        [apply requests_audio, playAudio_events_audio; [done|];
         by destruct Hlast as [(? & -> & _)|(? & -> & _)]|];
      set (tail := stops ref ++ mid ++ [last]) in *; clearbody tail
  end.
  eapply Hthree; [exact Hrun|].
  rewrite !requests_app, Htail. reflexivity.
Qed.

Lemma requests_on_error (err : Error) (c : Component) :
  requests (App.on_error err c).2 = [].
Proof.
  rewrite on_error_run. by destruct (App.credential_expired err).
Qed.

(** X10. A call of [processImage] sends at most three requests and never
    repeats one: the identify request for the image; then, if a name came
    back, the research request for that name; then, if a history came
    back, the narration request for that history. *)
Theorem requests_follow_the_stages (P : Platform) (c : Component) :
  exists r c' trace,
    App.processImage P c = (r, c', trace) /\
    (requests trace = [] \/
     exists base64,
       readAsDataURL P = Some base64 /\
       (requests trace = [GeminiService.identify_request base64] \/
        exists name,
          returns (GeminiService.identifyLandmark P base64) name /\
          (requests trace = [GeminiService.identify_request base64;
                             GeminiService.history_request name] \/
           exists history sources,
             returns (GeminiService.getLandmarkHistory P name) (history, sources) /\
             requests trace = [GeminiService.identify_request base64;
                               GeminiService.history_request name;
                               GeminiService.narration_request history]))).
Proof.
  destruct (hasSelectedApiKey P) eqn:Hkey; [|destruct (isApiKeyChecked c) eqn:Hck].
  3: { rewrite (processImage_without_key P c Hkey Hck).
       eexists _, _, _. split; [reflexivity|]. by left. }
  all: assert (Hready : key_ready P c) by (unfold key_ready; auto).
  all: destruct (readAsDataURL P) as [base64|] eqn:Hread;
    [|rewrite (processImage_no_load P c Hready Hread);
      eexists _, _, _; split; [reflexivity|]; by left].
  all: rewrite (processImage_run P c base64 Hready Hread).
  all: destruct (stages_requests P base64 (loaded c base64))
         as (r & c1 & t1 & Hrun & Hreq); rewrite Hrun.
  all: assert (Hsub : requests (submission base64 ++ t1) = requests t1)
         by (by rewrite requests_app).
  all: destruct r as [[]|err|];
    [eexists _, _, _; split; [reflexivity|]; right; exists base64;
     split; [done|]; by rewrite Hsub
    |pose proof (requests_on_error err c1) as Herr;
     destruct (App.on_error err c1) as [[r2 c2] t2]; simpl in Herr;
     eexists _, _, _; split; [reflexivity|]; right; exists base64;
     split; [done|];
     by rewrite (app_assoc _ t1), requests_app, Herr, app_nil_r, Hsub
    |eexists _, _, _; split; [reflexivity|]; right; exists base64;
     split; [done|]; by rewrite Hsub].
Qed.

(** X11. When what the service calls throw are objects (a [message] can
    be read from them, present or not) and the calls of the key selection
    complete, a call of [processImage] that gets past the key check and
    reads the file ends in one of two ways, unless a service call never
    answers: in [PLAYING], with the error cleared and an analysis
    published, or in [ERROR], with a message that is not empty and no
    analysis. When a service call never answers, the component stays in
    the stage of that call, with neither error nor analysis. *)
Theorem run_ends_ready_or_failed (P : Platform) (c : Component) (base64 : jsstring) :
  key_ready P c ->
  readAsDataURL P = Some base64 ->
  exists r c' trace,
    App.processImage P c = (r, c', trace) /\
    ((r = Returns tt /\ state c' = PLAYING /\ error c' = None /\ analysis c' <> None) \/
     (r = Returns tt /\ state c' = ERROR /\ analysis c' = None /\
      exists m, error c' = Some m /\ m <> []) \/
     (r = Diverges /\ error c' = None /\ analysis c' = None /\
      (state c' = LOADING_IMAGE \/ state c' = SEARCHING_HISTORY \/
       state c' = GENERATING_AUDIO))).
Proof.
  intros Hkey Hread.
  rewrite (processImage_run P c base64 Hkey Hread).
  destruct (stages_cases P base64 (loaded c base64))
    as [(r & c1 & t1 & Hrun & Hr & _ & Han & Her & _ & _ & Hst)
       |(name & history & sources & audioData & q & c1 & mid & last & Hrun
         & _ & _ & _ & _ & _ & _ & _ & _ & Hst & Han & Her & _)];
    rewrite Hrun.
  - simpl in Han, Her, Hst.
    destruct r as [[]|err|]; [done| |].
    + rewrite on_error_run.
      destruct (App.credential_expired err);
        (eexists _, _, _; split; [reflexivity|]; right; left;
         repeat (split; [done|]); eexists; split; [reflexivity|]).
      * discriminate.
      * by apply or_else_nonempty.
    + eexists _, _, _. split; [reflexivity|]. right. right.
      repeat (split; [done|]). tauto.
  - simpl in Her. eexists _, _, _. split; [reflexivity|]. left.
    repeat (split; [done|]). by rewrite Han.
Qed.

(** What [playAudio] does when the payload is not base64, or holds an odd
    number of bytes. *)
Lemma playAudio_rejected (P : Platform) (base64Audio : jsstring) (c : Component) :
  (atob P base64Audio = None \/
   exists bin, atob P base64Audio = Some bin /\ Nat.even (length bin) = false) ->
  exists c' mid e,
    not_awaited (App.playAudio P base64Audio) c
    = (Returns tt, c', stops (audioSourceRef c) ++ mid ++ [UnhandledRejection e]) /\
    state c' = state c /\ error c' = error c /\ analysis c' = analysis c /\
    audioSourceRef c' = audioSourceRef c /\
    (mid = [] \/ mid = [NewAudioContext 24000]).
Proof.
  intros Hbad. unfold App.playAudio. run_unfold.
  destruct c as [st er an im ck ctxr src n]. simpl.
  destruct Hbad as [Hnone | (bin & Hbin & Hodd)].
  - unfold decodeBase64. rewrite Hnone.
    destruct src as [node|], ctxr as [ctx|]; simpl;
      eexists; (exists [] + exists [NewAudioContext 24000]); eexists;
      (split; [reflexivity|]); simpl; auto 10.
  - rewrite (decodeBase64_returns _ _ _ Hbin).
    unfold decodeAudioData, new_Int16Array, Uint8Array_of. cbn [buffer].
    rewrite length_fmap, Hodd.
    destruct src as [node|], ctxr as [ctx|]; simpl;
      eexists; (exists [] + exists [NewAudioContext 24000]); eexists;
      (split; [reflexivity|]); simpl; auto 10.
Qed.

(** X12. A payload that cannot be decoded (not base64, or an odd number
    of bytes) does not fail the run: the three stages having succeeded,
    the component is in [PLAYING] with the analysis published and no
    error, nothing is started, the source node current before stays
    current after being stopped, and the failure of [playAudio] is an
    unhandled rejection. *)
Theorem undecodable_audio_goes_unreported (P : Platform) (c : Component)
    (base64 name history audioData : jsstring) (sources : list Source) :
  key_ready P c ->
  readAsDataURL P = Some base64 ->
  returns (GeminiService.identifyLandmark P base64) name ->
  name <> lit "Unknown" ->
  returns (GeminiService.getLandmarkHistory P name) (history, sources) ->
  returns (GeminiService.generateNarration P history) audioData ->
  (atob P audioData = None \/
   exists bin, atob P audioData = Some bin /\ Nat.even (length bin) = false) ->
  exists c' trace e,
    App.processImage P c = (Returns tt, c', trace) /\
    state c' = PLAYING /\
    error c' = None /\
    analysis c' = Some (mkAnalysis name history sources (Some audioData)) /\
    audioSourceRef c' = audioSourceRef c /\
    last trace = Some (UnhandledRejection e) /\
    (forall node buffer, ~ In (SourceStart node buffer) trace).
Proof.
  intros Hkey Hread Hid Hname Hhist Hnarr Hbad.
  rewrite (processImage_run P c base64 Hkey Hread), stages_run.
  rewrite (identifyLandmark_returns _ _ _ Hid), (str_eqb_neq _ _ Hname).
  unfold setState at 1, mbind, Run_bind, emit, modify. cbv beta iota zeta.
  rewrite (getLandmarkHistory_returns _ _ _ Hhist).
  unfold setState at 1, mbind, Run_bind, emit, modify. cbv beta iota zeta.
  cbn [fst snd]. rewrite (generateNarration_returns _ _ _ Hnarr).
  unfold setAnalysis, setState, mbind, Run_bind, emit, modify. cbv beta iota zeta.
  match goal with
  | |- context [not_awaited (App.playAudio P ?a) ?k] =>
      destruct (playAudio_rejected P a k Hbad)
        as (c8 & mid & e & -> & Hst & Her & Han & Href & Hmid)
  end.
  simpl in Hst, Her, Han, Href.
  eexists _, _, e. split; [reflexivity|].
  repeat (split; [done|]). split.
  - rewrite !app_assoc. apply last_snoc.
  - intros node buffer Hin. simpl in Hin.
    repeat (destruct Hin as [Hin|Hin]; [discriminate|]).
    apply in_app_iff in Hin as [Hin|Hin].
    + destruct (audioSourceRef c); simpl in Hin; [|done].
      destruct Hin as [Hin|[]]; discriminate.
    + apply in_app_iff in Hin as [Hin|Hin].
      * destruct Hmid as [-> | ->]; simpl in Hin; [done|].
        destruct Hin as [Hin|[]]; discriminate.
      * destruct Hin as [Hin|[]]; discriminate.
Qed.

(** X13. What is played is what was sent: when the payload decodes (by
    [atob]) to the bytes of a non-empty sequence of 16-bit samples, low
    byte first, [playAudio] stops the current node, if any, and then
    starts one new node on a mono buffer at 24000 Hz that holds the
    samples in order, each over [32768]; that node becomes the current
    one. The audio context is the standard's. *)
Theorem playAudio_plays_the_samples (P : Platform) (c : Component)
    (base64Audio : jsstring) (samples : list Z) :
  atob P base64Audio = Some (Byte.to_N <$> pcm16_le samples) ->
  Forall int16 samples ->
  samples <> [] ->
  newAudioContext P = webaudio ->
  (audioContextRef c = None \/ audioContextRef c = Some webaudio) ->
  exists c' mid,
    App.playAudio P base64Audio c
    = (Returns tt, c',
       stops (audioSourceRef c) ++ mid ++
       [SourceStart (nodes c)
          (mkAudioBuffer 24000 [(fun s => F32 (inject_Z s / 32768)) <$> samples])]) /\
    (mid = [] \/ mid = [NewAudioContext 24000]) /\
    audioSourceRef c' = Some (nodes c) /\
    audioContextRef c' = Some webaudio /\
    state c' = state c.
Proof.
  intros Hatob Hint Hne Hnew Hctx.
  assert (Hdec : decodeBase64 (atob P) base64Audio
                 = Returns (Uint8Array_of (pcm16_le samples))).
  { rewrite (decodeBase64_returns _ _ _ Hatob). do 2 f_equal.
    rewrite <- list_fmap_compose. rewrite <- (list_fmap_id (pcm16_le samples)) at 2.
    apply list_fmap_ext. intros _ b _. apply ToUint8_of_byte. }
  assert (Hbuf : decodeAudioData (Uint8Array_of (pcm16_le samples)) webaudio 24000 1
                 = Returns (mkAudioBuffer 24000
                              [(fun s => F32 (inject_Z s / 32768)) <$> samples])).
  { rewrite (decodeAudioData_webaudio 24000 samples 1 (length samples));
      [|done|lia|destruct samples; [done|simpl; lia]|lia].
    do 2 f_equal. simpl. f_equal.
    apply list_eq. intros i. rewrite !list_lookup_fmap.
    destruct (decide (i < length samples)) as [Hi|Hi].
    - rewrite lookup_seq_lt by done. simpl.
      replace (i * 1 + 0) with i by lia.
      by destruct (lookup_lt_is_Some_2 samples i Hi) as [s ->].
    - rewrite (lookup_ge_None_2 (seq 0 _)) by (rewrite length_seq; lia).
      by rewrite (lookup_ge_None_2 samples) by lia. }
  unfold App.playAudio. run_unfold.
  destruct c as [st er an im ck ctxr src n]. simpl in *.
  destruct src as [node|], Hctx as [-> | ->]; simpl;
    rewrite ?Hnew, Hdec; simpl; rewrite Hbuf; simpl;
    eexists; (exists [] + exists [NewAudioContext 24000]);
    (split; [reflexivity|]); simpl; auto.
Qed.

(** ** The test for an expired credential *)

Lemma startsWith_spec (p s : jsstring) :
  startsWith p s = true <-> exists post, s = p ++ post.
Proof.
  revert s. induction p as [|x p IH]; intros s; simpl.
  - split; [by exists s|done].
  - destruct s as [|y s].
    + split; [done|by intros [? ?]].
    + rewrite andb_true_iff, N.eqb_eq, IH. split.
      * intros [-> [post ->]]. by exists post.
      * intros [post [= -> ->]]. eauto.
Qed.

Lemma includes_spec (p s : jsstring) :
  includes p s = true <-> exists pre post, s = pre ++ p ++ post.
Proof.
  induction s as [|y s IH].
  - simpl. rewrite orb_false_r, startsWith_spec. split.
    + intros [post ->]. by exists [], post.
    + intros (pre & post & Heq). symmetry in Heq.
      apply app_eq_nil in Heq as [-> Heq]. by exists post.
  - change (includes p (y :: s)) with (startsWith p (y :: s) || includes p s).
    rewrite orb_true_iff, startsWith_spec, IH. split.
    + intros [[post ->]|(pre & post & ->)]; [by exists [], post|by exists (y :: pre), post].
    + intros ([|z pre] & post & Heq); [left; by exists post|].
      injection Heq as -> ->. right. by exists pre, post.
Qed.

(** X14. The handler takes the branch of the expired credential exactly
    when the error has a message in which the text "Requested entity was
    not found" occurs somewhere, in this spelling; an error without a
    message takes the other branch. *)
Theorem credential_expired_iff (err : Error) :
  App.credential_expired err = true <->
  exists pre post,
    message err = Some (pre ++ lit "Requested entity was not found" ++ post).
Proof.
  unfold App.credential_expired. destruct (message err) as [m|].
  - rewrite includes_spec. split.
    + intros (pre & post & ->). by exists pre, post.
    + intros (pre & post & [= ->]). by exists pre, post.
  - split; [done|]. by intros (? & ? & ?).
Qed.

(** ** Sessions *)

Lemma hear_mute (now : list nat) (e : Event) : mute e -> hear now e = now.
Proof. by destruct e. Qed.

Lemma foldl_hear_mute (now : list nat) (t : list Event) :
  Forall mute t -> foldl hear now t = now.
Proof.
  induction 1 as [|e t He _ IH]; [done|]. simpl. by rewrite hear_mute.
Qed.

Lemma peak_mute (now : list nat) (t : list Event) :
  Forall mute t -> peak now t = length now.
Proof.
  induction 1 as [|e t He _ IH]; [done|]. simpl. rewrite hear_mute, IH by done. lia.
Qed.

Lemma peak_app (now : list nat) (t1 t2 : list Event) :
  peak now (t1 ++ t2) = Nat.max (peak now t1) (peak (foldl hear now t1) t2).
Proof.
  revert now. induction t1 as [|e t1 IH]; intros now; simpl.
  - destruct t2; simpl; lia.
  - rewrite IH. lia.
Qed.

Lemma quiet_mute (t : list Event) : Forall quiet t -> Forall mute t.
Proof.
  intros H. eapply Forall_impl; [exact H|]. by intros [].
Qed.

Lemma submission_mute (base64 : jsstring) : Forall mute (submission base64).
Proof. by repeat constructor. Qed.

(** Every way through [processImage]: either it starts and stops nothing
    and leaves the current node as it is (the key selection; a run that
    fails, hangs or reads nothing), or it ends in [PLAYING], having called
    [playAudio] last. *)
Lemma processImage_cases (P : Platform) (c : Component) :
  exists r c' t,
    App.processImage P c = (r, c', t) /\
    ((Forall mute t /\ audioSourceRef c' = audioSourceRef c /\
      ((state c' = state c /\ error c' = error c /\ analysis c' = analysis c) \/
       (r = Returns tt /\ state c' = ERROR /\ analysis c' = None /\
        exists m, error c' = Some m /\ m <> []) \/
       waiting c'))
     \/
     (exists front mid last,
        t = front ++ stops (audioSourceRef c) ++ mid ++ [last] /\
        Forall mute front /\ Forall mute mid /\
        r = Returns tt /\ state c' = PLAYING /\ error c' = None /\
        analysis c' <> None /\
        ((exists buffer, last = SourceStart (nodes c) buffer /\
                         audioSourceRef c' = Some (nodes c)) \/
         (mute last /\ audioSourceRef c' = audioSourceRef c)))).
Proof.
  destruct (hasSelectedApiKey P) eqn:Hkey; [|destruct (isApiKeyChecked c) eqn:Hck].
  3: { rewrite (processImage_without_key P c Hkey Hck).
       eexists _, _, _. split; [reflexivity|]. left.
       split; [by repeat constructor|]. split; [done|]. by left. }
  all: assert (Hready : key_ready P c) by (unfold key_ready; auto).
  all: destruct (readAsDataURL P) as [base64|] eqn:Hread;
    [|rewrite (processImage_no_load P c Hready Hread);
      eexists _, _, _; split; [reflexivity|]; left;
      split; [by repeat constructor|]; split; [done|];
      right; right; split; [done|]; by left].
  all: rewrite (processImage_run P c base64 Hready Hread).
  all: destruct (stages_cases P base64 (loaded c base64))
    as [(r & c1 & t1 & Hrun & Hr & Hquiet & Han & Her & _ & Href & Hst)
       |(name & history & sources & audioData & q & c1 & mid & last & Hrun
         & _ & _ & _ & _ & _ & _ & _ & Hquiet & Hst & Han & Her & _ & Hmid & Hlast)];
    rewrite Hrun.
  all: try (simpl in Han, Her, Hst, Href; apply quiet_mute in Hquiet;
            destruct r as [[]|err|]; [done| |];
            [rewrite on_error_run;
             destruct (App.credential_expired err);
             (eexists _, _, _; split; [reflexivity|]; left;
              split; [repeat (apply Forall_app; split);
                      auto using submission_mute; by repeat constructor|];
              split; [done|]; right; left;
              repeat (split; [done|]); eexists; split; [reflexivity|]);
             [discriminate|by apply or_else_nonempty]
            |eexists _, _, _; split; [reflexivity|]; left;
             split; [apply Forall_app; auto using submission_mute|];
             split; [done|]; right; right; split; [done|]; tauto]).
  all: simpl in Her; apply quiet_mute in Hquiet;
    eexists _, _, _; split; [reflexivity|]; right;
    exists (submission base64 ++ q ++
            [SetAnalysis (Some (mkAnalysis name history sources (Some audioData)));
             SetState PLAYING]), mid, last;
    (split; [by rewrite <- !app_assoc|]);
    (split; [repeat (apply Forall_app; split);
             auto using submission_mute; by repeat constructor|]);
    (split; [destruct Hmid as [-> | ->]; by repeat constructor|]);
    repeat (split; [done|]);
    (split; [by rewrite Han|]);
    destruct Hlast as [(buffer & -> & Href)|(e & -> & Href)];
    [left; by exists buffer|right; by split].
Qed.

Lemma handleApiKeySelection_run (c : Component) :
  App.handleApiKeySelection c
  = (Returns tt,
     mkComponent (state c) (error c) (analysis c) (imagePreview c) true
       (audioContextRef c) (audioSourceRef c) (nodes c),
     [OpenSelectKey; SetIsApiKeyChecked true]).
Proof. reflexivity. Qed.

Lemma hear_stops (now : list nat) (ref : option nat) :
  (now = [] \/ exists n, now = [n] /\ ref = Some n) ->
  foldl hear now (stops ref) = [] /\ peak now (stops ref) <= 1.
Proof.
  intros [-> | (n & -> & ->)].
  - by destruct ref; simpl; split; try lia.
  - simpl. rewrite Nat.eqb_refl. simpl. split; [done|lia].
Qed.

Lemma handle_one_playing (a : Action) (c c1 : Component) (r : completion unit)
    (t1 : list Event) (now : list nat) :
  offered c a = true ->
  handle a c = (r, c1, t1) ->
  one_playing c now ->
  one_playing c1 (foldl hear now t1) /\ peak now t1 <= 1.
Proof.
  intros Hoff Hrun Hinv.
  assert (Hlen : length now <= 1) by (destruct Hinv as [-> | (n & -> & _)]; simpl; lia).
  destruct a as [P| | |]; simpl in Hoff, Hrun.
  - apply bool_decide_eq_true in Hoff.
    assert (Hnow : now = []).
    { destruct Hinv as [-> | (n & _ & _ & Hst)]; [done|]. by rewrite Hoff in Hst. }
    subst now.
    destruct (processImage_cases P c)
      as (r' & c' & t & Hrun' & [(Hmute & Href & _)
                                |(front & mid & last & -> & Hfront & Hmid & _ & Hst & _ & _
                                  & Hlast)]);
      rewrite Hrun' in Hrun; injection Hrun as <- <- <-.
    + rewrite foldl_hear_mute, peak_mute by done. split; [by left|simpl; lia].
    + destruct (hear_stops [] (audioSourceRef c) ltac:(by left)) as [Hs Hp].
      rewrite !foldl_app, !peak_app, (foldl_hear_mute [] front Hfront), Hs,
        (peak_mute [] front Hfront), (foldl_hear_mute [] mid Hmid),
        (peak_mute [] mid Hmid).
      destruct Hlast as [(buffer & -> & Href)|[Hl Href]].
      * simpl. split; [right; by exists (nodes c)|lia].
      * simpl. rewrite (hear_mute [] last Hl). split; [by left|simpl; lia].
  - rewrite handleApiKeySelection_run in Hrun. injection Hrun as <- <- <-.
    simpl. split; [exact Hinv|lia].
  - rewrite stopExperience_run in Hrun. injection Hrun as <- <- <-.
    assert (Hnow : now = [] \/ exists n, now = [n] /\ audioSourceRef c = Some n).
    { destruct Hinv as [-> | (n & -> & Href & _)]; [by left|right; by exists n]. }
    destruct (hear_stops now (audioSourceRef c) Hnow) as [Hs Hp].
    rewrite foldl_app, peak_app, Hs. simpl. split; [by left|lia].
  - apply bool_decide_eq_true in Hoff.
    assert (Hnow : now = []).
    { destruct Hinv as [-> | (n & _ & _ & Hst)]; [done|]. by rewrite Hoff in Hst. }
    subst now. injection Hrun as <- <- <-. simpl. split; [by left|lia].
Qed.

Lemma steps_one_playing (c c' : Component) (t : list Event) :
  steps c t c' ->
  forall now, one_playing c now ->
    one_playing c' (foldl hear now t) /\ peak now t <= 1.
Proof.
  induction 1 as [c|c a r c1 t1 t2 c2 Hoff Hrun _ IH]; intros now Hinv.
  - split; [done|]. destruct Hinv as [-> | (n & -> & _)]; simpl; lia.
  - destruct (handle_one_playing a c c1 r t1 now Hoff Hrun Hinv) as [Hinv1 Hp1].
    destruct (IH _ Hinv1) as [Hinv2 Hp2].
    rewrite foldl_app, peak_app. split; [done|lia].
Qed.

(** *** Restarting the pipeline *)









(** X15. In a session that starts with the initial component and goes
    through actions the view offers, each taken when the handler before it
    has finished, at no moment do two source nodes play at once; what plays at the end, if anything, is the current node, and
    nothing plays unless the stage is [PLAYING]: in particular nothing
    plays while the file input is shown. *)
Theorem one_playback_at_a_time (t : list Event) (c : Component) :
  steps initial t c ->
  peak [] t <= 1 /\
  (state c <> PLAYING -> playing t = []) /\
  (forall n, In n (playing t) -> audioSourceRef c = Some n).
Proof.
  intros Hsteps.
  destruct (steps_one_playing initial c t Hsteps [] ltac:(by left)) as [Hinv Hp].
  split; [done|]. unfold playing.
  destruct Hinv as [-> | (n & -> & Href & Hst)].
  - split; [done|]. by intros n [].
  - split; [by intros []|]. intros m [<-|[]]. done.
Qed.

(** A component that waits keeps waiting, whatever the user does. *)
Lemma handle_waiting (a : Action) (c c1 : Component) (r : completion unit)
    (t1 : list Event) :
  offered c a = true ->
  handle a c = (r, c1, t1) ->
  waiting c ->
  a = ChangeApiKey /\ state c1 = state c /\ waiting c1 /\
  t1 = [OpenSelectKey; SetIsApiKeyChecked true].
Proof.
  intros Hoff Hrun [Han Hst].
  destruct a as [P| | |]; simpl in Hoff, Hrun.
  - apply bool_decide_eq_true in Hoff. rewrite Hoff in Hst. by destruct Hst as [|[|]].
  - rewrite handleApiKeySelection_run in Hrun. injection Hrun as <- <- <-.
    by repeat split.
  - by rewrite Han, andb_false_r in Hoff.
  - apply bool_decide_eq_true in Hoff. rewrite Hoff in Hst. by destruct Hst as [|[|]].
Qed.

(** X16. There is no way out of a stage that waits: when the component is
    in [LOADING_IMAGE], [SEARCHING_HISTORY] or [GENERATING_AUDIO] without
    an analysis and nothing comes back (the file read failed, or a service
    call never answers), the only control the view offers is "Change API
    Key", and whatever the user does the stage stays what it is and no
    request is sent. *)
Theorem waiting_is_a_dead_end (c c' : Component) (t : list Event) :
  waiting c ->
  steps c t c' ->
  state c' = state c /\ waiting c' /\
  Forall (fun e => e = OpenSelectKey \/ e = SetIsApiKeyChecked true) t.
Proof.
  intros Hw Hsteps. induction Hsteps as [c|c a r c1 t1 t2 c2 Hoff Hrun _ IH].
  - split; [done|]. split; [done|]. constructor.
  - destruct (handle_waiting a c c1 r t1 Hoff Hrun Hw) as (_ & Hst & Hw1 & ->).
    destruct (IH Hw1) as (Hst2 & Hw2 & Hall).
    split; [congruence|]. split; [done|].
    apply Forall_app. split; [|done].
    constructor; [by left|]. constructor; [by right|]. constructor.
Qed.




(** ** The audio context *)

Lemma contexts_app (t1 t2 : list Event) : contexts (t1 ++ t2) = contexts t1 + contexts t2.
Proof. unfold contexts. by rewrite omap_app, length_app. Qed.

Lemma context_step_trans (c c1 c2 : Component) (t1 t2 : list Event) :
  context_step c c1 t1 -> context_step c1 c2 t2 -> context_step c c2 (t1 ++ t2).
Proof.
  unfold context_step. rewrite contexts_app.
  intros [[H1 K1]|(H1 & H1' & K1)] [[H2 K2]|(H2 & H2' & K2)].
  - left. split; [congruence|lia].
  - right. repeat split; [congruence|done|lia].
  - right. repeat split; [done|congruence|lia].
  - congruence.
Qed.

Lemma keeps_bind {A B} (m : Run A) (k : A -> Run B) :
  keeps_context m -> (forall a, keeps_context (k a)) -> keeps_context (m ≫= k).
Proof.
  intros Hm Hk c r c' t. unfold mbind, Run_bind.
  destruct (m c) as [[[a|e|] c1] t1] eqn:Hmc.
  - destruct (k a c1) as [[r2 c2] t2] eqn:Hkc. intros [= <- <- <-].
    eapply context_step_trans; [by eapply Hm|by eapply Hk].
  - intros [= <- <- <-]. by eapply Hm.
  - intros [= <- <- <-]. by eapply Hm.
Qed.

Lemma keeps_try_catch (body : Run unit) (handler : Error -> Run unit) :
  keeps_context body -> (forall e, keeps_context (handler e)) ->
  keeps_context (try_catch body handler).
Proof.
  intros Hm Hk c r c' t. unfold try_catch.
  destruct (body c) as [[[a|e|] c1] t1] eqn:Hmc.
  - intros [= <- <- <-]. by eapply Hm.
  - destruct (handler e c1) as [[r2 c2] t2] eqn:Hkc. intros [= <- <- <-].
    eapply context_step_trans; [by eapply Hm|by eapply Hk].
  - intros [= <- <- <-]. by eapply Hm.
Qed.

Lemma keeps_ret {A} (a : A) : keeps_context (mret a).
Proof. intros c r c' t [= <- <- <-]. by left. Qed.

Lemma keeps_lift {A} (r : completion A) : keeps_context (lift r).
Proof. intros c r' c' t [= <- <- <-]. by left. Qed.

Lemma keeps_get {A} (f : Component -> A) : keeps_context (get f).
Proof. intros c r c' t [= <- <- <-]. by left. Qed.

Lemma keeps_emit (e : Event) :
  (forall rate, e <> NewAudioContext rate) -> keeps_context (emit e).
Proof.
  intros He c r c' t [= <- <- <-]. left. split; [done|].
  destruct e; try done. by destruct (He rate).
Qed.

Lemma keeps_modify (f : Component -> Component) :
  (forall c, audioContextRef (f c) = audioContextRef c) -> keeps_context (modify f).
Proof. intros Hf c r c' t [= <- <- <-]. by left. Qed.

Ltac keeps_step :=
  first
    [ apply keeps_bind; [|intros ?]
    | apply keeps_ret | apply keeps_lift | apply keeps_get
    | apply keeps_emit; intros ?; discriminate
    | apply keeps_modify; intros ?; reflexivity ].

Lemma keeps_setState (s : AppState) : keeps_context (setState s).
Proof. unfold setState. repeat keeps_step. Qed.

Lemma keeps_setError (e : option jsstring) : keeps_context (setError e).
Proof. unfold setError. repeat keeps_step. Qed.

Lemma keeps_setAnalysis (a : option LandmarkAnalysis) : keeps_context (setAnalysis a).
Proof. unfold setAnalysis. repeat keeps_step. Qed.

Lemma keeps_setImagePreview (p : option jsstring) : keeps_context (setImagePreview p).
Proof. unfold setImagePreview. repeat keeps_step. Qed.

Lemma keeps_handleApiKeySelection : keeps_context App.handleApiKeySelection.
Proof. unfold App.handleApiKeySelection, setIsApiKeyChecked. repeat keeps_step. Qed.

Lemma keeps_call (P : Platform) (r : GenAI.Request) : keeps_context (GeminiService.call P r).
Proof. unfold GeminiService.call. repeat keeps_step. Qed.

(** [playAudio] creates the context when there is none, and only then. *)
Lemma keeps_playAudio (P : Platform) (base64Audio : jsstring) :
  keeps_context (not_awaited (App.playAudio P base64Audio)).
Proof.
  intros c r c' t. unfold App.playAudio. run_unfold.
  destruct c as [st er an im ck ctxr src n]. simpl.
  destruct src as [node|], ctxr as [ctx|]; simpl;
    destruct (decodeBase64 (atob P) base64Audio) as [decoded|e|]; simpl;
    try match goal with
    | |- context [decodeAudioData decoded ?k 24000 1] =>
        destruct (decodeAudioData decoded k 24000 1) as [buffer|e|]; simpl
    end;
    intros [= <- <- <-]; ((by left) || (by right)).
Qed.

Lemma keeps_stages (P : Platform) (base64 : jsstring) : keeps_context (App.stages P base64).
Proof.
  unfold App.stages, GeminiService.identifyLandmark, GeminiService.getLandmarkHistory,
    GeminiService.generateNarration, throw.
  repeat first
    [ apply keeps_playAudio | apply keeps_call | apply keeps_setState
    | apply keeps_setAnalysis | keeps_step
    | match goal with
      | |- keeps_context (if ?b then _ else _) => destruct b
      | |- keeps_context (match ?x with _ => _ end) => destruct x
      end ].
Qed.

Lemma keeps_processImage (P : Platform) : keeps_context (App.processImage P).
Proof.
  unfold App.processImage, App.onload, App.on_error.
  repeat first
    [ apply keeps_stages | apply keeps_handleApiKeySelection | apply keeps_setState
    | apply keeps_setError | apply keeps_setAnalysis | apply keeps_setImagePreview
    | apply keeps_try_catch; [|intros ?] | keeps_step
    | match goal with
      | |- keeps_context (if ?b then _ else _) => destruct b
      | |- keeps_context (match ?x with _ => _ end) => destruct x
      end ].
Qed.

Lemma keeps_stopExperience : keeps_context App.stopExperience.
Proof.
  unfold App.stopExperience.
  repeat first
    [ apply keeps_setState | apply keeps_setAnalysis | apply keeps_setImagePreview
    | keeps_step
    | match goal with
      | |- keeps_context (match ?x with _ => _ end) => destruct x
      end ].
Qed.

Lemma steps_context (c c' : Component) (t : list Event) :
  steps c t c' -> context_step c c' t.
Proof.
  induction 1 as [c|c a r c1 t1 t2 c2 Hoff Hrun _ IH]; [by left|].
  eapply context_step_trans; [|exact IH].
  destruct a as [P| | |]; simpl in Hrun.
  - by eapply keeps_processImage.
  - by eapply keeps_handleApiKeySelection.
  - by eapply keeps_stopExperience.
  - by eapply keeps_setState.
Qed.

(** X18. In a session at most one audio context is ever created: the
    first call of [playAudio] creates it, every later one uses it again,
    and no handler drops it. *)
Theorem audio_context_is_created_once (t : list Event) (c : Component) :
  steps initial t c ->
  contexts t <= 1 /\
  (audioContextRef c = None <-> contexts t = 0) /\
  forall c' t', steps c t' c' ->
    audioContextRef c <> None ->
    audioContextRef c' = audioContextRef c /\ contexts t' = 0.
Proof.
  intros Hsteps. apply steps_context in Hsteps as [[Href Hn]|(_ & Href & Hn)].
  - split; [lia|]. split; [done|]. intros c' t' _ Hne. by rewrite Href in Hne.
  - split; [lia|]. split; [split; [done|lia]|].
    intros c' t' Hsteps' _. apply steps_context in Hsteps' as [|(Hnone & _)]; done.
Qed.

(** ** What the handlers leave alone *)

Section Frames.

Context (R : Component -> Component -> Prop).
Hypothesis R_refl : forall c, R c c.
Hypothesis R_trans : forall a b c, R a b -> R b c -> R a c.

Lemma respects_bind {A B} (m : Run A) (k : A -> Run B) :
  respects R m -> (forall a, respects R (k a)) -> respects R (m ≫= k).
Proof.
  intros Hm Hk c r c' t. unfold mbind, Run_bind.
  destruct (m c) as [[[a|e|] c1] t1] eqn:Hmc.
  - destruct (k a c1) as [[r2 c2] t2] eqn:Hkc. intros [= <- <- <-].
    eapply R_trans; [by eapply Hm|by eapply Hk].
  - intros [= <- <- <-]. by eapply Hm.
  - intros [= <- <- <-]. by eapply Hm.
Qed.

Lemma respects_try_catch (body : Run unit) (handler : Error -> Run unit) :
  respects R body -> (forall e, respects R (handler e)) ->
  respects R (try_catch body handler).
Proof.
  intros Hm Hk c r c' t. unfold try_catch.
  destruct (body c) as [[[a|e|] c1] t1] eqn:Hmc.
  - intros [= <- <- <-]. by eapply Hm.
  - destruct (handler e c1) as [[r2 c2] t2] eqn:Hkc. intros [= <- <- <-].
    eapply R_trans; [by eapply Hm|by eapply Hk].
  - intros [= <- <- <-]. by eapply Hm.
Qed.

Lemma respects_ret {A} (a : A) : respects R (mret a).
Proof. intros c r c' t [= <- <- <-]. apply R_refl. Qed.

Lemma respects_lift {A} (r : completion A) : respects R (lift r).
Proof. intros c r' c' t [= <- <- <-]. apply R_refl. Qed.

Lemma respects_get {A} (f : Component -> A) : respects R (get f).
Proof. intros c r c' t [= <- <- <-]. apply R_refl. Qed.

Lemma respects_emit (e : Event) : respects R (emit e).
Proof. intros c r c' t [= <- <- <-]. apply R_refl. Qed.

Lemma respects_modify (f : Component -> Component) :
  (forall c, R c (f c)) -> respects R (modify f).
Proof. intros Hf c r c' t [= <- <- <-]. apply Hf. Qed.

End Frames.

(** One step through a piece of monadic code, for a relation that holds
    across every update but the one named [skip]. *)
Ltac respects_step refl trans :=
  first
    [ apply (respects_bind _ trans); [|intros ?]
    | apply (respects_try_catch _ trans); [|intros ?]
    | apply (respects_ret _ refl) | apply (respects_lift _ refl)
    | apply (respects_get _ refl) | apply (respects_emit _ refl)
    | apply respects_modify; intros ?; cbv; (reflexivity || tauto)
    | match goal with
      | |- respects _ (if ?b then _ else _) => destruct b
      | |- respects _ (match ?x with _ => _ end) => destruct x
      end ].

Ltac respects_unfold :=
  unfold App.stages, App.on_error, App.playAudio, App.handleApiKeySelection,
    App.stopExperience, App.processImage, App.onload,
    GeminiService.identifyLandmark, GeminiService.getLandmarkHistory,
    GeminiService.generateNarration, GeminiService.call, not_awaited,
    createBufferSource, setState, setError, setAnalysis, setIsApiKeyChecked,
    set_audioContextRef, set_audioSourceRef, throw.

Lemma same_preview_refl (c : Component) : same_preview c c.
Proof. done. Qed.

Lemma same_preview_trans (a b c : Component) :
  same_preview a b -> same_preview b c -> same_preview a c.
Proof. unfold same_preview. congruence. Qed.

Lemma stages_same_preview (P : Platform) (base64 : jsstring) :
  respects same_preview (App.stages P base64).
Proof.
  respects_unfold. repeat respects_step same_preview_refl same_preview_trans.
Qed.

Lemma on_error_same_preview (err : Error) : respects same_preview (App.on_error err).
Proof.
  respects_unfold. repeat respects_step same_preview_refl same_preview_trans.
Qed.

(** X19. At the end of every call of [processImage] that read the file,
    however it ends, the preview is the data URL that was read; a call
    that did not read it (no key yet, or a failed read) leaves the preview
    that was there. *)
Theorem preview_is_the_image_read (P : Platform) (c : Component) :
  imagePreview (App.processImage P c).1.2
  = match readAsDataURL P with
    | Some base64 =>
        if negb (hasSelectedApiKey P) && negb (isApiKeyChecked c)
        then imagePreview c else Some base64
    | None => imagePreview c
    end.
Proof.
  destruct (hasSelectedApiKey P) eqn:Hkey; [|destruct (isApiKeyChecked c) eqn:Hck].
  3: { rewrite (processImage_without_key P c Hkey Hck). by destruct (readAsDataURL P). }
  all: assert (Hready : key_ready P c) by (unfold key_ready; auto).
  all: destruct (readAsDataURL P) as [base64|] eqn:Hread;
    [|by rewrite (processImage_no_load P c Hready Hread)].
  all: rewrite (processImage_run P c base64 Hready Hread).
  all: destruct (App.stages P base64 (loaded c base64)) as [[r c1] t1] eqn:Hrun.
  all: apply stages_same_preview in Hrun; unfold same_preview in Hrun; simpl in Hrun.
  all: destruct r as [[]|err|]; simpl; try done.
  all: destruct (App.on_error err c1) as [[r2 c2] t2] eqn:Herr.
  all: apply on_error_same_preview in Herr; unfold same_preview in Herr; simpl.
  all: congruence.
Qed.

Lemma still_checked_refl (c : Component) : still_checked c c.
Proof. by intros ?. Qed.

Lemma still_checked_trans (a b c : Component) :
  still_checked a b -> still_checked b c -> still_checked a c.
Proof. unfold still_checked. auto. Qed.

Lemma handle_still_checked (a : Action) : respects still_checked (handle a).
Proof.
  destruct a; simpl; respects_unfold;
    repeat respects_step still_checked_refl still_checked_trans.
Qed.

(** X20. No handler takes back the mark of a key selection: once the key
    selection has been opened in a session (by the key check, by "Change
    API Key" or after a failure for an expired credential), every later
    call of [processImage] passes the key check, whether or not a key is
    selected. *)
Theorem key_check_stays_passed (c c' : Component) (t : list Event) (P : Platform) :
  steps c t c' ->
  isApiKeyChecked c = true ->
  isApiKeyChecked c' = true /\ key_ready P c'.
Proof.
  intros Hsteps Hck.
  assert (Hck' : isApiKeyChecked c' = true).
  { induction Hsteps as [c|c a r c1 t1 t2 c2 Hoff Hrun _ IH]; [done|].
    apply IH. by eapply (handle_still_checked a). }
  split; [done|]. by right.
Qed.

(** ** The paragraphs of the history *)

Lemma split_nonempty (sep : N) (s : jsstring) : split sep s <> [].
Proof.
  destruct s as [|c s]; [done|]. simpl.
  destruct (N.eqb c sep); [done|]. by destruct (split sep s).
Qed.

Lemma join_split (sep : N) (s : jsstring) : join sep (split sep s) = s.
Proof.
  induction s as [|c s IH]; [done|]. simpl.
  pose proof (split_nonempty sep s) as Hne.
  destruct (N.eqb_spec c sep) as [->|_].
  - destruct (split sep s) as [|p ps]; [done|]. simpl in *. by rewrite IH.
  - destruct (split sep s) as [|p ps]; [done|].
    destruct ps as [|q ps]; simpl in *; by rewrite <- IH.
Qed.

Lemma split_pieces (sep : N) (s : jsstring) :
  Forall (fun p => ~ In sep p) (split sep s).
Proof.
  induction s as [|c s IH]; simpl; [constructor; [by intros []|constructor]|].
  destruct (N.eqb_spec c sep) as [->|Hne]; [constructor; [by intros []|done]|].
  destruct (split sep s) as [|p ps]; [constructor; [by intros [|[]]|constructor]|].
  inversion IH as [|? ? Hp Hps]; subst.
  constructor; [|done]. by intros [|].
Qed.

Lemma length_split (sep : N) (s : jsstring) :
  length (split sep s) = S (length (List.filter (N.eqb sep) s)).
Proof.
  induction s as [|c s IH]; [done|]. simpl.
  pose proof (split_nonempty sep s) as Hne.
  rewrite (N.eqb_sym sep c).
  destruct (N.eqb c sep); simpl; [by rewrite IH|].
  destruct (split sep s) as [|p ps]; [done|]. by rewrite <- IH.
Qed.

(** The element [1] of a split is what [split_1] computes. *)
Lemma split_1_is_split (sep : N) (s : jsstring) : split_1 sep s = split sep s !! 1.
Proof.
  assert (Hhead : forall s, head (split sep s) = Some (upto sep s)).
  { intros s'. induction s' as [|c s' IH]; [done|]. simpl.
    destruct (N.eqb c sep); [done|].
    destruct (split sep s') as [|p ps]; simpl in *; [done|]. by injection IH as ->. }
  induction s as [|c s IH]; [done|]. simpl.
  destruct (N.eqb c sep).
  - specialize (Hhead s). by destruct (split sep s).
  - rewrite IH. pose proof (split_nonempty sep s). by destruct (split sep s).
Qed.

(** X21. The history section shows the whole history: the paragraphs,
    joined by line feeds, are the history; no paragraph holds a line feed;
    and there is one paragraph more than there are line feeds, so that an
    empty history still gives one (empty) paragraph. *)
Theorem paragraphs_are_the_history (a : LandmarkAnalysis) :
  join 10 (paragraphs a) = history a /\
  Forall (fun p => ~ In 10%N p) (paragraphs a) /\
  length (paragraphs a) = S (length (List.filter (N.eqb 10) (history a))).
Proof.
  unfold paragraphs. split; [apply join_split|].
  split; [apply split_pieces|apply length_split].
Qed.

(** ** The further statements at concrete inputs *)

Lemma play_steps (actions : list Action) :
  forall c c' t, play actions c = Some (c', t) -> steps c t c'.
Proof.
  induction actions as [|a rest IH]; intros c c' t; simpl.
  - intros [= <- <-]. constructor.
  - destruct (offered c a) eqn:Hoff; [|done].
    destruct (handle a c) as [[r c1] t1] eqn:Hrun.
    destruct (play rest c1) as [[c2 t2]|] eqn:Hrest; [|done].
    intros [= <- <-]. eapply steps_next; eauto.
Qed.


(** Five samples on two channels, seen through an array that shows the
    last two bytes only: two frames, the fifth sample dropped. *)
Lemma decodeAudioData_truncates_witness :
  exists decoded,
    decodeAudioData (subarray (Uint8Array_of (pcm16_le [1; -2; 3; -4; 5]%Z)) 8 10)
      webaudio 24000 2 = Returns decoded /\
    sampleRate decoded = 24000%Z /\
    length (channels decoded) = 2 /\
    forall c, c < 2 ->
      exists channelData,
        channels decoded !! c = Some channelData /\
        length channelData = length (pcm16_le [1; -2; 3; -4; 5]%Z) / 2 / 2 /\
        forall i, i < length (pcm16_le [1; -2; 3; -4; 5]%Z) / 2 / 2 ->
          exists s,
            int16_view (pcm16_le [1; -2; 3; -4; 5]%Z) !! (i * 2 + c) = Some s /\
            int16 s /\
            channelData !! i = Some (F32 (inject_Z s / 32768)).
Proof.
  apply (decodeAudioData_truncates
           (subarray (Uint8Array_of (pcm16_le [1; -2; 3; -4; 5]%Z)) 8 10) webaudio 24000 2
           (mkAudioBuffer 24000 [[F32 0; F32 0]; [F32 0; F32 0]])).
  - lia.
  - reflexivity.
  - reflexivity.
  - reflexivity.
  - repeat constructor.
Defined.

Lemma decodeAudioData_refuses_witness :
  exists e, decodeAudioData (Uint8Array_of (pcm16_le [1]%Z)) webaudio 24000 2 = Throws e.
Proof.
  apply (decodeAudioData_refuses (Uint8Array_of (pcm16_le [1]%Z)) 24000 2).
  right. right. simpl. lia.
Defined.

Lemma identified_name_is_trimmed_witness :
  exists name,
    returns (GeminiService.identifyLandmark Sample.eiffel Sample.photo) name /\
    name <> [] /\
    (forall ch, head name = Some ch \/ last name = Some ch -> isWhiteSpace ch = false) /\
    (forall t, GenAI.text (Sample.identified (Some (lit " Eiffel Tower "))) = Some t ->
               trim t <> [] -> name = trim t).
Proof.
  apply (identified_name_is_trimmed Sample.eiffel Sample.photo
           (Sample.identified (Some (lit " Eiffel Tower ")))).
  reflexivity.
Defined.

Lemma blank_identification_fails_witness :
  returns (GeminiService.identifyLandmark Sample2.blank Sample.photo) (lit "Unknown") /\
  exists c' trace,
    App.processImage Sample2.blank initial = (Returns tt, c', trace) /\
    state c' = ERROR /\
    error c' = Some (lit "Could not identify a landmark in this photo.") /\
    requests trace = [GeminiService.identify_request Sample.photo].
Proof.
  apply (blank_identification_fails Sample2.blank initial Sample.photo
           (Sample.identified (Some (lit "  ")))).
  - left. reflexivity.
  - reflexivity.
  - reflexivity.
  - right. eexists. split; [reflexivity|]. repeat constructor.
Defined.

Lemma identify_sends_the_payload_witness :
  GenAI.contents
    (GeminiService.identify_request (lit "data:image/png;base64" ++ 44%N :: lit "iVBORw0KGgo="))
  = GenAI.InlineDataAndText (Some (lit "iVBORw0KGgo=")) (lit "image/jpeg")
      GeminiService.identify_prompt /\
  GenAI.contents (GeminiService.identify_request (lit "data:image/png;base64"))
  = GenAI.InlineDataAndText None (lit "image/jpeg") GeminiService.identify_prompt.
Proof.
  apply (identify_sends_the_payload (lit "data:image/png;base64") (lit "iVBORw0KGgo=")).
  - vm_compute. intros H. repeat (destruct H as [H|H]; [discriminate|]). done.
  - vm_compute. intros H. repeat (destruct H as [H|H]; [discriminate|]). done.
Defined.

Lemma getLandmarkHistory_always_returns_witness :
  exists history sources,
    returns (GeminiService.getLandmarkHistory Sample.silent (lit "Eiffel Tower"))
      (history, sources) /\
    history <> [] /\
    (forall x t, GenAI.text (Sample.researched None) = Some (x :: t) -> history = x :: t) /\
    (GeminiService.groundingChunks_of (Sample.researched None) = None -> sources = []) /\
    (forall chunks,
       GeminiService.groundingChunks_of (Sample.researched None) = Some chunks ->
       length sources <= length chunks).
Proof.
  apply (getLandmarkHistory_always_returns Sample.silent (lit "Eiffel Tower")
           (Sample.researched None)).
  reflexivity.
Defined.

Lemma narration_reads_the_first_part_witness :
  (forall x s,
     GenAI.inlineData (GenAI.mkPart None) ≫= GenAI.data = Some (x :: s) ->
     returns (GeminiService.generateNarration Sample2.late_audio (lit "Paragraph one."))
       (x :: s)) /\
  (GenAI.inlineData (GenAI.mkPart None) ≫= GenAI.data = None \/
   GenAI.inlineData (GenAI.mkPart None) ≫= GenAI.data = Some [] ->
     throws (GeminiService.generateNarration Sample2.late_audio (lit "Paragraph one."))
       (new_Error "Audio generation failed")).
Proof.
  apply (narration_reads_the_first_part Sample2.late_audio (lit "Paragraph one.")
           Sample2.audio_second
           (GenAI.mkCandidate
              (Some (GenAI.mkContent
                       (Some [GenAI.mkPart None;
                              GenAI.mkPart (Some (GenAI.mkBlob (Some (lit "AAD/fwCA"))))])))
              None)
           []
           (GenAI.mkContent
              (Some [GenAI.mkPart None;
                     GenAI.mkPart (Some (GenAI.mkBlob (Some (lit "AAD/fwCA"))))]))
           (GenAI.mkPart None)
           [GenAI.mkPart (Some (GenAI.mkBlob (Some (lit "AAD/fwCA"))))]).
  - reflexivity.
  - reflexivity.
  - reflexivity.
  - reflexivity.
Defined.

Lemma key_check_prompts_once_witness :
  exists c',
    App.processImage Sample2.keyless initial
    = (Returns tt, c', [HasSelectedApiKey; OpenSelectKey; SetIsApiKeyChecked true]) /\
    state c' = state initial /\ error c' = error initial /\
    analysis c' = analysis initial /\ imagePreview c' = imagePreview initial /\
    exists r c'' rest,
      App.processImage Sample2.keyless c'
      = (r, c'',
         [HasSelectedApiKey; SetState LOADING_IMAGE; SetError None; SetAnalysis None]
         ++ rest).
Proof.
  apply (key_check_prompts_once Sample2.keyless Sample2.keyless initial).
  - reflexivity.
  - reflexivity.
Defined.

Lemma run_ends_ready_or_failed_witness :
  exists r c' trace,
    App.processImage Sample.expired initial = (r, c', trace) /\
    ((r = Returns tt /\ state c' = PLAYING /\ error c' = None /\ analysis c' <> None) \/
     (r = Returns tt /\ state c' = ERROR /\ analysis c' = None /\
      exists m, error c' = Some m /\ m <> []) \/
     (r = Diverges /\ error c' = None /\ analysis c' = None /\
      (state c' = LOADING_IMAGE \/ state c' = SEARCHING_HISTORY \/
       state c' = GENERATING_AUDIO))).
Proof.
  apply (run_ends_ready_or_failed Sample.expired initial Sample.photo).
  - left. reflexivity.
  - reflexivity.
Defined.

Lemma undecodable_audio_goes_unreported_witness :
  exists c' trace e,
    App.processImage Sample2.garbled initial = (Returns tt, c', trace) /\
    state c' = PLAYING /\
    error c' = None /\
    analysis c'
    = Some (mkAnalysis (lit "Eiffel Tower") (lit "Paragraph one.")
              [mkSource (GenAI.title Sample.wiki) (GenAI.uri Sample.wiki);
               mkSource (GenAI.title Sample.untitled) (GenAI.uri Sample.untitled)]
              (Some (lit "AA*A"))) /\
    audioSourceRef c' = audioSourceRef initial /\
    last trace = Some (UnhandledRejection e) /\
    (forall node buffer, ~ In (SourceStart node buffer) trace).
Proof.
  apply (undecodable_audio_goes_unreported Sample2.garbled initial Sample.photo
           (lit "Eiffel Tower") (lit "Paragraph one.") (lit "AA*A")
           [mkSource (GenAI.title Sample.wiki) (GenAI.uri Sample.wiki);
            mkSource (GenAI.title Sample.untitled) (GenAI.uri Sample.untitled)]).
  - left. reflexivity.
  - reflexivity.
  - intros c. reflexivity.
  - discriminate.
  - intros c. reflexivity.
  - intros c. reflexivity.
  - left. reflexivity.
Defined.

Lemma playAudio_plays_the_samples_witness :
  exists c' mid,
    App.playAudio Sample.eiffel (lit "AAD/fwCA") initial
    = (Returns tt, c',
       stops (audioSourceRef initial) ++ mid ++
       [SourceStart (nodes initial)
          (mkAudioBuffer 24000
             [(fun s => F32 (inject_Z s / 32768)) <$> [0; 32767; -32768]%Z])]) /\
    (mid = [] \/ mid = [NewAudioContext 24000]) /\
    audioSourceRef c' = Some (nodes initial) /\
    audioContextRef c' = Some webaudio /\
    state c' = state initial.
Proof.
  apply (playAudio_plays_the_samples Sample.eiffel initial (lit "AAD/fwCA")
           [0; 32767; -32768]%Z).
  - reflexivity.
  - repeat constructor; unfold int16; lia.
  - discriminate.
  - reflexivity.
  - left. reflexivity.
Defined.

Lemma one_playback_at_a_time_witness :
  exists c t,
    play Sample2.tour initial = Some (c, t) /\
    peak [] t <= 1 /\
    (state c <> PLAYING -> playing t = []) /\
    (forall n, In n (playing t) -> audioSourceRef c = Some n).
Proof.
  destruct (play Sample2.tour initial) as [[c t]|] eqn:Hplay;
    [|vm_compute in Hplay; discriminate].
  exists c, t. split; [reflexivity|].
  apply (one_playback_at_a_time t c).
  exact (play_steps Sample2.tour initial c t Hplay).
Defined.

Lemma waiting_is_a_dead_end_witness :
  exists c c' t,
    c = (App.processImage Sample2.unreadable initial).1.2 /\
    play [ChangeApiKey; ChangeApiKey] c = Some (c', t) /\
    state c' = state c /\ waiting c' /\
    Forall (fun e => e = OpenSelectKey \/ e = SetIsApiKeyChecked true) t.
Proof.
  destruct (play [ChangeApiKey; ChangeApiKey]
              (App.processImage Sample2.unreadable initial).1.2)
    as [[c' t]|] eqn:Hplay; [|vm_compute in Hplay; discriminate].
  eexists _, c', t. split; [reflexivity|]. split; [exact Hplay|].
  apply (waiting_is_a_dead_end _ c' t).
  - split; [reflexivity|]. left. reflexivity.
  - exact (play_steps _ _ c' t Hplay).
Defined.


Lemma audio_context_is_created_once_witness :
  exists c t,
    play Sample2.tour initial = Some (c, t) /\
    contexts t <= 1 /\
    (audioContextRef c = None <-> contexts t = 0) /\
    forall c' t', steps c t' c' ->
      audioContextRef c <> None ->
      audioContextRef c' = audioContextRef c /\ contexts t' = 0.
Proof.
  destruct (play Sample2.tour initial) as [[c t]|] eqn:Hplay;
    [|vm_compute in Hplay; discriminate].
  exists c, t. split; [reflexivity|].
  apply (audio_context_is_created_once t c).
  exact (play_steps Sample2.tour initial c t Hplay).
Defined.

Lemma key_check_stays_passed_witness :
  exists c' t,
    play [ChooseFile Sample2.keyless; TryAnotherPhoto]
      (App.handleApiKeySelection initial).1.2 = Some (c', t) /\
    isApiKeyChecked c' = true /\ key_ready Sample2.keyless c'.
Proof.
  destruct (play [ChooseFile Sample2.keyless; TryAnotherPhoto]
              (App.handleApiKeySelection initial).1.2)
    as [[c' t]|] eqn:Hplay; [|vm_compute in Hplay; discriminate].
  exists c', t. split; [reflexivity|].
  apply (key_check_stays_passed (App.handleApiKeySelection initial).1.2 c' t
           Sample2.keyless).
  - exact (play_steps _ _ c' t Hplay).
  - reflexivity.
Defined.
